(** * Storage engine of the time-tracker bot (src/database.py)

    A shallow embedding of the SQLite-backed storage engine and of the
    handlers and helpers of the front-end (src/bot.py) that call it,
    together with the properties of the engine that the specification
    states and further properties that the code shows.

    Modelling conventions.
    - The database file is a record of the two tables, each a list of rows in
      insertion order, plus the two AUTOINCREMENT counters that SQLite keeps
      in [sqlite_sequence].
    - An integer column is a [Z]; a TEXT column is a [string] of ASCII
      characters; a nullable column is an [option].  Python's [str.lower],
      [str.strip] and [str.split] are Unicode-aware; they are embedded on
      ASCII text, where the definitions are exact, and a theorem that
      applies one of them to a text it does not fix assumes [is_ascii] of
      that text.  The calls that build a [reachable] database and the
      messages of a handler sequence carry ASCII text in the same way.
    - [datetime.now()] is an explicit argument [now].  A naive local
      [datetime] is the number of microseconds it denotes, a [Z]: the ISO
      text that the code stores ([isoformat], read back by [fromisoformat])
      round-trips, and compares as text exactly as the instants compare, so
      the text never appears.  [int((now - started).total_seconds())] is the
      quotient by one million that truncates toward zero (the float is exact
      for intervals below about 270 years).
    - Every function opens its own connection and commits once: one call is
      one state transition.  Storage faults are not modelled. *)

From Stdlib Require Import ZArith List String Ascii Bool Lia.
From Stdlib Require Import Permutation Sorted.
From Stdlib Require Decimal DecimalString DecimalZ.
Import ListNotations.

#[local] Open Scope string_scope.
#[local] Open Scope list_scope.
#[local] Open Scope Z_scope.

(** ** Rows and tables *)

Definition timestamp := Z.

Definition user_id := Z.

(** A row of [categories (id, user_id, name)]. *)
Record category := mkCategory {
  cat_id : Z;
  cat_user_id : user_id;
  cat_name : string
}.

(** A row of [time_entries (id, user_id, category_id, task_name, started_at,
    stopped_at, duration_seconds)]; the last two columns are nullable. *)
Record time_entry := mkEntry {
  te_id : Z;
  te_user_id : user_id;
  te_category_id : Z;
  te_task_name : string;
  te_started_at : timestamp;
  te_stopped_at : option timestamp;
  te_duration_seconds : option Z
}.

(** The database: both tables and, for each, the largest rowid that
    AUTOINCREMENT has handed out so far. *)
Record db := mkDb {
  categories : list category;
  categories_seq : Z;
  time_entries : list time_entry;
  time_entries_seq : Z
}.

(** [init_db] on a fresh file: both tables exist and are empty. *)
Definition init_db : db := mkDb [] 0 [] 0.

Definition DEFAULT_CATEGORIES : list string :=
  ["work"; "study"; "sport"; "other"].

Definition is_null {A : Type} (o : option A) : bool :=
  match o with None => true | Some _ => false end.

(** ** Text helpers *)

(** The texts on which the three helpers below are Python's: every
    character is an ASCII character (a code below 128).  On other text
    [str.lower], [str.strip] and [str.split] follow the Unicode tables,
    which are not embedded. *)
Fixpoint is_ascii (s : string) : bool :=
  match s with
  | EmptyString => true
  | String c s' => (N_of_ascii c <? 128)%N && is_ascii s'
  end.

(** [str.lower()] on ASCII text: the letters A to Z move to a to z, every
    other character stays. *)
Definition lower_ascii (c : ascii) : ascii :=
  let n := N_of_ascii c in
  if (65 <=? n)%N && (n <=? 90)%N then ascii_of_N (n + 32) else c.

Fixpoint lower (s : string) : string :=
  match s with
  | EmptyString => EmptyString
  | String c s' => String (lower_ascii c) (lower s')
  end.

(** The ASCII characters [str.strip()] removes: tab, line feed, vertical tab,
    form feed, carriage return, the four separators 28 to 31, and space. *)
Definition is_space (c : ascii) : bool :=
  let n := N_of_ascii c in
  ((9 <=? n)%N && (n <=? 13)%N) || ((28 <=? n)%N && (n <=? 32)%N).

Fixpoint lstrip (s : string) : string :=
  match s with
  | EmptyString => EmptyString
  | String c s' => if is_space c then lstrip s' else s
  end.

Fixpoint rstrip (s : string) : string :=
  match s with
  | EmptyString => EmptyString
  | String c s' =>
      match rstrip s' with
      | EmptyString => if is_space c then EmptyString else String c EmptyString
      | r => String c r
      end
  end.

(** [str.strip()] on ASCII text, which src/bot.py applies to what the user
    typed. *)
Definition strip (s : string) : string := rstrip (lstrip s).

(** ** ORDER BY *)

Section OrderBy.
Context {A : Type} (before : A -> A -> bool).

Fixpoint place (x : A) (l : list A) : list A :=
  match l with
  | [] => [x]
  | y :: l' => if before x y then x :: l else y :: place x l'
  end.

(** A stable sort: rows that compare equal keep their relative order. *)
Definition order_by (l : list A) : list A := fold_right place [] l.

Definition comes_before (a b : A) : Prop := before a b = true.
End OrderBy.

(** ** Writes to [categories] *)

(** Does a row with this [(user_id, name)] exist: the UNIQUE constraint. *)
Definition unique_conflict (u : user_id) (n : string) (cs : list category)
  : bool :=
  existsb (fun c => (cat_user_id c =? u) && String.eqb (cat_name c) n) cs.

Definition append_category (u : user_id) (n : string) (d : db) : db :=
  let i := categories_seq d + 1 in
  mkDb (categories d ++ [mkCategory i u n]) i
       (time_entries d) (time_entries_seq d).

(** [INSERT INTO categories (user_id, name) VALUES (?, ?)]: [None] is the
    [IntegrityError] of a UNIQUE conflict; the statement then changes
    nothing, the counter included. *)
Definition insert_category (u : user_id) (n : string) (d : db) : option db :=
  if unique_conflict u n (categories d) then None
  else Some (append_category u n d).

(** [INSERT OR IGNORE INTO categories ...]: a conflicting row is skipped.
    SQLite picks the rowid before it checks the constraints, so the skipped
    row still advances the AUTOINCREMENT counter. *)
Definition insert_or_ignore_category (u : user_id) (n : string) (d : db)
  : db :=
  if unique_conflict u n (categories d)
  then mkDb (categories d) (categories_seq d + 1)
            (time_entries d) (time_entries_seq d)
  else append_category u n d.

(** The loop [for name in ...: INSERT OR IGNORE ...] on one connection. *)
Definition insert_or_ignore_all (u : user_id) (names : list string) (d : db)
  : db :=
  fold_left (fun acc name => insert_or_ignore_category u name acc) names d.

Definition ensure_default_categories (u : user_id) (d : db) : db :=
  insert_or_ignore_all u DEFAULT_CATEGORIES d.

(** [SELECT id, name FROM categories WHERE user_id = ? ORDER BY id]. *)
Definition get_categories (u : user_id) (d : db) : list (Z * string) :=
  map (fun c => (cat_id c, cat_name c))
      (order_by (fun a b => cat_id a <=? cat_id b)
                (filter (fun c => cat_user_id c =? u) (categories d))).

(** The result is the returned boolean and the database afterwards. *)
Definition add_category (u : user_id) (name : string) (d : db) : bool * db :=
  match insert_category u (lower name) d with
  | Some d' => (true, d')
  | None => (false, d)
  end.

(** ** Writes to and reads of [time_entries] *)

(** The connection of [start_entry] never turns foreign keys on, so the
    REFERENCES clause is not enforced; an empty [task_name] is not NULL. *)
Definition start_entry (now : timestamp) (u : user_id) (category_id : Z)
  (task_name : string) (d : db) : db :=
  let i := time_entries_seq d + 1 in
  mkDb (categories d) (categories_seq d)
       (time_entries d ++ [mkEntry i u category_id task_name now None None])
       i.

(** [time_entries te JOIN categories c ON te.category_id = c.id]. *)
Definition joined_with (cs : list category) (es : list time_entry)
  : list (time_entry * category) :=
  flat_map
    (fun te => map (pair te)
                   (filter (fun c => te_category_id te =? cat_id c) cs))
    es.

Definition joined (d : db) : list (time_entry * category) :=
  joined_with (categories d) (time_entries d).

Definition id_desc (a b : time_entry * category) : bool :=
  te_id (fst b) <=? te_id (fst a).

(** The dict [get_active_entry] returns. *)
Record active_row := mkActive {
  ar_id : Z;
  ar_task_name : string;
  ar_started_at : timestamp;
  ar_category : string
}.

Definition to_active (r : time_entry * category) : active_row :=
  mkActive (te_id (fst r)) (te_task_name (fst r)) (te_started_at (fst r))
           (cat_name (snd r)).

(** [WHERE te.user_id = ? AND te.stopped_at IS NULL]. *)
Definition is_active_for (u : user_id) (r : time_entry * category) : bool :=
  (te_user_id (fst r) =? u) && is_null (te_stopped_at (fst r)).

(** [ORDER BY te.id DESC LIMIT 1] over the join: the newest such row. *)
Definition get_active_entry (u : user_id) (d : db) : option active_row :=
  option_map to_active
    (hd_error (order_by id_desc (filter (is_active_for u) (joined d)))).

(** [UPDATE time_entries SET stopped_at = ?, duration_seconds = ?
    WHERE id = ?]. *)
Definition set_stopped (now : timestamp) (duration : Z) (te : time_entry)
  : time_entry :=
  mkEntry (te_id te) (te_user_id te) (te_category_id te) (te_task_name te)
          (te_started_at te) (Some now) (Some duration).

Definition update_stopped (i : Z) (now : timestamp) (duration : Z) (d : db)
  : db :=
  mkDb (categories d) (categories_seq d)
       (map (fun te => if te_id te =? i then set_stopped now duration te
                       else te)
            (time_entries d))
       (time_entries_seq d).

(** The dict [stop_active_entry] returns: the active row plus the
    duration. *)
Record stopped_row := mkStopped {
  sr_entry : active_row;
  sr_duration_seconds : Z
}.

Definition elapsed_seconds (now started : timestamp) : Z :=
  Z.quot (now - started) 1000000.

Definition stop_active_entry (now : timestamp) (u : user_id) (d : db)
  : option stopped_row * db :=
  match get_active_entry u d with
  | None => (None, d)
  | Some entry =>
      let duration := elapsed_seconds now (ar_started_at entry) in
      (Some (mkStopped entry duration),
       update_stopped (ar_id entry) now duration d)
  end.

(** ** Aggregation *)

(** SQL [SUM]: NULLs are skipped, and the sum of no value at all is NULL. *)
Fixpoint sql_sum (l : list (option Z)) : option Z :=
  match l with
  | [] => None
  | None :: l' => sql_sum l'
  | Some x :: l' =>
      match sql_sum l' with
      | None => Some x
      | Some s => Some (x + s)
      end
  end.

(** [ORDER BY total DESC]: NULL sorts below every number. *)
Definition total_desc (a b : string * option Z) : bool :=
  match snd a, snd b with
  | _, None => true
  | None, Some _ => false
  | Some x, Some y => y <=? x
  end.

Definition microseconds_per_day : Z := 86400000000.

(** [WHERE te.user_id = ? AND te.stopped_at IS NOT NULL AND
    te.started_at >= ?]: a completed entry of the user that started at or
    after [since]. *)
Definition stats_where (since : timestamp) (u : user_id) (te : time_entry)
  : bool :=
  (te_user_id te =? u) && negb (is_null (te_stopped_at te))
  && (since <=? te_started_at te).

Definition stats_rows (since : timestamp) (u : user_id) (d : db)
  : list (time_entry * category) :=
  filter (fun r => stats_where since u (fst r)) (joined d).

(** [GROUP BY c.name] with [SUM(te.duration_seconds)]: one row per name.
    SQL leaves the order of rows with equal totals open; here they stay in
    the order in which their names first appear. *)
Definition group_totals (rows : list (time_entry * category))
  : list (string * option Z) :=
  map (fun n =>
         (n, sql_sum (map (fun r => te_duration_seconds (fst r))
                          (filter (fun r => String.eqb (cat_name (snd r)) n)
                                  rows))))
      (nodup string_dec (map (fun r => cat_name (snd r)) rows)).

Definition get_stats (now : timestamp) (u : user_id) (days : Z) (d : db)
  : list (string * option Z) :=
  let since := now - days * microseconds_per_day in
  order_by total_desc (group_totals (stats_rows since u d)).

(** The dict of one [get_history] row. *)
Record history_row := mkHistory {
  hr_task_name : string;
  hr_category : string;
  hr_started_at : timestamp;
  hr_duration_seconds : option Z
}.

Definition to_history (r : time_entry * category) : history_row :=
  mkHistory (te_task_name (fst r)) (cat_name (snd r))
            (te_started_at (fst r)) (te_duration_seconds (fst r)).

(** SQL [LIMIT n]: a negative [n] means no limit. *)
Definition sql_limit {A : Type} (n : Z) (l : list A) : list A :=
  if n <? 0 then l else firstn (Z.to_nat n) l.

Definition get_history (u : user_id) (limit : Z) (d : db)
  : list history_row :=
  sql_limit limit
    (map to_history
       (order_by id_desc
          (filter (fun r => (te_user_id (fst r) =? u)
                            && negb (is_null (te_stopped_at (fst r))))
                  (joined d)))).

(** ** Sequences of engine calls *)

Inductive op :=
| EnsureDefaultCategories (u : user_id)
| AddCategory (u : user_id) (name : string)
| StartEntry (now : timestamp) (u : user_id) (category_id : Z)
             (task_name : string)
| StopActiveEntry (now : timestamp) (u : user_id).

Definition step (o : op) (d : db) : db :=
  match o with
  | EnsureDefaultCategories u => ensure_default_categories u d
  | AddCategory u name => snd (add_category u name d)
  | StartEntry now u c t => start_entry now u c t d
  | StopActiveEntry now u => snd (stop_active_entry now u d)
  end.

Definition run (ops : list op) (d : db) : db :=
  fold_left (fun acc o => step o acc) ops d.

(** The databases the engine can produce from a fresh file. *)
Definition reachable (d : db) : Prop := exists ops, d = run ops init_db.

(** The user on whose behalf a call is made. *)
Definition op_user (o : op) : user_id :=
  match o with
  | EnsureDefaultCategories u => u
  | AddCategory u _ => u
  | StartEntry _ u _ _ => u
  | StopActiveEntry _ u => u
  end.

(** ** The invariant of reachable databases *)

(** Row identifiers are unique and never exceed the AUTOINCREMENT counter,
    and an entry has a stop timestamp exactly when it has a duration. *)
Record wf (d : db) : Prop := mkWf {
  wf_cat_nodup : NoDup (map cat_id (categories d));
  wf_cat_seq : Forall (fun c => cat_id c <= categories_seq d) (categories d);
  wf_te_nodup : NoDup (map te_id (time_entries d));
  wf_te_seq :
    Forall (fun e => te_id e <= time_entries_seq d) (time_entries d);
  wf_te_stop :
    Forall (fun e => te_stopped_at e = None <-> te_duration_seconds e = None)
           (time_entries d)
}.

(** ** The statistics, said over the entries

    [get_stats] works on the rows of the join; the specification speaks of
    entries and of the category each refers to.  These definitions say the
    second, to be compared with the first. *)

(** The category row an entry refers to. *)
Definition category_of (cs : list category) (e : time_entry)
  : option category :=
  find (fun c => te_category_id e =? cat_id c) cs.

Definition has_name (cs : list category) (n : string) (e : time_entry)
  : bool :=
  match category_of cs e with
  | Some c => String.eqb (cat_name c) n
  | None => false
  end.

(** The entries that count and refer to a category row named [n]. *)
Definition entries_named (since : timestamp) (u : user_id) (n : string)
  (d : db) : list time_entry :=
  filter (fun e => stats_where since u e && has_name (categories d) n e)
         (time_entries d).

(** The entries that count and refer to the category row [c]. *)
Definition entries_of_category (since : timestamp) (u : user_id)
  (c : category) (d : db) : list time_entry :=
  filter (fun e => stats_where since u e && (te_category_id e =? cat_id c))
         (time_entries d).

Definition duration_or_zero (e : time_entry) : Z :=
  match te_duration_seconds e with Some x => x | None => 0 end.

Definition total_seconds (es : list time_entry) : Z :=
  fold_right (fun e acc => duration_or_zero e + acc) 0 es.

(** ** What else reachable databases keep *)

(** Identifiers grow along each table (rows lie in creation order), no user
    has two categories of one name, and every entry that has a stop
    timestamp refers to a category row that exists. *)
Record ordered (d : db) : Prop := mkOrdered {
  ord_cat_ids : StronglySorted Z.lt (map cat_id (categories d));
  ord_cat_unique :
    NoDup (map (fun c => (cat_user_id c, cat_name c)) (categories d));
  ord_te_ids : StronglySorted Z.lt (map te_id (time_entries d));
  ord_te_category :
    Forall (fun e => te_stopped_at e <> None ->
                     exists c, In c (categories d)
                               /\ cat_id c = te_category_id e)
           (time_entries d)
}.

(** Two states of one entry: all but the stop timestamp and the duration
    agree. *)
Definition same_entry (e e' : time_entry) : Prop :=
  te_id e' = te_id e /\ te_user_id e' = te_user_id e
  /\ te_category_id e' = te_category_id e
  /\ te_task_name e' = te_task_name e
  /\ te_started_at e' = te_started_at e.

(** An entry of the user that has a stop timestamp. *)
Definition is_completed_for (u : user_id) (e : time_entry) : bool :=
  (te_user_id e =? u) && negb (is_null (te_stopped_at e)).

Definition zsum (l : list Z) : Z := fold_right Z.add 0 l.

(** A total of [get_stats] as a number: NULL counts for nothing. *)
Definition total_or_zero (t : option Z) : Z :=
  match t with Some x => x | None => 0 end.

(** ** The front-end (src/bot.py)

    A handler is a function of what it reads (its arguments, the FSM
    context aiogram hands it, the database) to what it leaves (the text it
    answers, the FSM context, the database).  An exception that the handler
    does not catch ends it where it is raised. *)

Inductive exn := IndexError | KeyError | ValueError.

Inductive outcome (A : Type) :=
| Done (a : A)
| Raised (e : exn).

Arguments Done {A} a.
Arguments Raised {A} e.

(** [str(n)] and [f"{n}"] for an integer: decimal digits, a minus sign
    before a negative number.  (CPython refuses numerals of more than 4300
    digits in both directions; no identifier or duration comes near.) *)
Definition str (n : Z) : string :=
  DecimalString.NilZero.string_of_int (Z.to_int n).

Definition digit_of (c : ascii) : option Z :=
  let n := N_of_ascii c in
  if (48 <=? n)%N && (n <=? 57)%N then Some (Z.of_N (n - 48)) else None.

(** The digits of [int(s)]: decimal digits, with single underscores allowed
    between two digits. *)
Fixpoint digits_from (acc : Z) (after_digit : bool) (s : string)
  : option Z :=
  match s with
  | EmptyString => if after_digit then Some acc else None
  | String c s' =>
      match digit_of c with
      | Some k => digits_from (10 * acc + k) true s'
      | None =>
          if Ascii.eqb c "_" && after_digit then digits_from acc false s'
          else None
      end
  end.

(** The whitespace [int] skips around an ASCII numeral: tab, line feed,
    vertical tab, form feed, carriage return and space (C's [isspace]; the
    separators 28 to 31 are not among them). *)
Definition is_c_space (c : ascii) : bool :=
  let n := N_of_ascii c in
  ((9 <=? n)%N && (n <=? 13)%N) || (n =? 32)%N.

Fixpoint lstrip_c (s : string) : string :=
  match s with
  | EmptyString => EmptyString
  | String c s' => if is_c_space c then lstrip_c s' else s
  end.

Fixpoint rstrip_c (s : string) : string :=
  match s with
  | EmptyString => EmptyString
  | String c s' =>
      match rstrip_c s' with
      | EmptyString =>
          if is_c_space c then EmptyString else String c EmptyString
      | r => String c r
      end
  end.

(** [int(s)] on ASCII text: surrounding whitespace is dropped, one sign is
    allowed; [None] is the [ValueError]. *)
Definition int (s : string) : option Z :=
  match rstrip_c (lstrip_c s) with
  | String c r =>
      if Ascii.eqb c "-" then option_map Z.opp (digits_from 0 false r)
      else if Ascii.eqb c "+" then digits_from 0 false r
      else digits_from 0 false (String c r)
  | EmptyString => None
  end.

(** [str.split()] without argument, on ASCII text: the maximal runs of
    characters that are not whitespace.  [cur] is the run being read. *)
Fixpoint words_from (cur : string) (s : string) : list string :=
  match s with
  | EmptyString =>
      match cur with EmptyString => [] | _ => [cur] end
  | String c s' =>
      if is_space c then
        match cur with
        | EmptyString => words_from EmptyString s'
        | _ => cur :: words_from EmptyString s'
        end
      else words_from (String.append cur (String c EmptyString)) s'
  end.

Definition split (s : string) : list string := words_from EmptyString s.

Definition newline : string := String (ascii_of_nat 10) EmptyString.

(** An f-string: its pieces, one after the other. *)
Definition fstring (pieces : list string) : string :=
  String.concat EmptyString pieces.

(** [format_duration]: [divmod] rounds toward minus infinity, as [/] and
    [mod] on [Z] do for a positive divisor. *)
Definition duration_parts (h m s : Z) : list string :=
  (if h =? 0 then [] else [fstring [str h; "h"]])
  ++ (if m =? 0 then [] else [fstring [str m; "m"]])
  ++ [fstring [str s; "s"]].

Definition format_duration (seconds : Z) : string :=
  let h := seconds / 3600 in
  let rem := seconds mod 3600 in
  let m := rem / 60 in
  let s := rem mod 60 in
  String.concat " " (duration_parts h m s).

(** The states of [TrackStates]; no state is [None]. *)
Inductive TrackStates := pick_category_state | enter_task_state.

(** An FSM context: its state and its data, a dict whose only key is
    category_id. *)
Record fsm := mkFsm {
  fsm_state : option TrackStates;
  fsm_category_id : option Z
}.

(** [state.clear()]. *)
Definition fsm_clear : fsm := mkFsm None None.

(** A message the bot sends: its text and the buttons under it, each with
    its text and its callback data. *)
Record reply := mkReply {
  reply_text : string;
  reply_keyboard : list (string * string)
}.

Definition say (text : string) : reply := mkReply text [].

Definition cmd_start (u : user_id) (d : db) : reply * db :=
  (say (fstring ["Hello! I'm your time-tracker bot."; newline; newline;
                 "Use /track to start a timer."; newline;
                 "Use /stop to stop it."; newline;
                 "Use /help to see all commands."]),
   ensure_default_categories u d).

Definition keyboard_of (cats : list (Z * string)) : list (string * string) :=
  map (fun cat => (snd cat, str (fst cat))) cats.

Definition cmd_track (u : user_id) (f : fsm) (d : db) : reply * fsm * db :=
  match get_active_entry u d with
  | Some active =>
      (say (fstring ["You already have a running timer: ";
                     ar_task_name active; " ["; ar_category active; "].";
                     newline; "Use /stop first."]),
       f, d)
  | None =>
      let d' :=
        match get_categories u d with
        | [] => ensure_default_categories u d
        | _ => d
        end in
      (mkReply "Pick a category:" (keyboard_of (get_categories u d')),
       mkFsm (Some pick_category_state) (fsm_category_id f), d')
  end.

(** The handler registered for callback queries in state pick_category. *)
Definition pick_category (data : string) (f : fsm) : outcome reply * fsm :=
  match int data with
  | None => (Raised ValueError, f)
  | Some category_id =>
      (Done (say "Now type the task name:"),
       mkFsm (Some enter_task_state) (Some category_id))
  end.

Definition cmd_cancel (f : fsm) : reply * fsm :=
  match fsm_state f with
  | None => (say "Nothing to cancel.", f)
  | Some _ => (say "Tracking cancelled.", fsm_clear)
  end.

(** The handler registered for text messages in state enter_task. *)
Definition enter_task (now : timestamp) (u : user_id) (text : string)
  (f : fsm) (d : db) : outcome reply * fsm * db :=
  let task_name := strip text in
  match fsm_category_id f with
  | None => (Raised KeyError, f, d)
  | Some category_id =>
      (Done (say (fstring ["Timer started: "; task_name])), fsm_clear,
       start_entry now u category_id task_name d)
  end.

Definition cmd_stop (now : timestamp) (u : user_id) (d : db) : reply * db :=
  match stop_active_entry now u d with
  | (None, d') => (say "No active timer to stop.", d')
  | (Some entry, d') =>
      (say (fstring ["Stopped: "; ar_task_name (sr_entry entry); " [";
                     ar_category (sr_entry entry); "]"; newline;
                     "Duration: ";
                     format_duration (sr_duration_seconds entry)]),
       d')
  end.

Definition cmd_status (now : timestamp) (u : user_id) (d : db) : reply :=
  match get_active_entry u d with
  | None => say "No active timer."
  | Some entry =>
      say (fstring ["Tracking: "; ar_task_name entry; " [";
                    ar_category entry; "]"; newline; "Elapsed: ";
                    format_duration
                      (elapsed_seconds now (ar_started_at entry))])
  end.

Definition cmd_addcat (u : user_id) (args : option string) (d : db)
  : outcome reply * db :=
  match args with
  | None | Some EmptyString => (Done (say "Usage: /addcat <name>"), d)
  | Some a =>
      match split (strip a) with
      | [] => (Raised IndexError, d)
      | word :: _ =>
          let name := lower word in
          match add_category u name d with
          | (true, d') =>
              (Done (say (fstring ["Category '"; name; "' added."])), d')
          | (false, d') =>
              (Done (say (fstring ["Category '"; name;
                                   "' already exists."])), d')
          end
      end
  end.

(** What can happen around one user who talks to the bot in one chat (one
    FSM context): the handlers the user sets off, each under the state
    filter of its decorator, and the engine calls that the handlers of
    other users make in between. *)
Inductive event :=
| OnStart
| OnTrack
| OnPick (data : string)
| OnCancel
| OnText (now : timestamp) (text : string)
| OnStop (now : timestamp)
| OnAddcat (args : option string)
| OnOther (o : op).

Definition handle (u : user_id) (ev : event) (s : fsm * db) : fsm * db :=
  let (f, d) := s in
  match ev with
  | OnStart => (f, snd (cmd_start u d))
  | OnTrack => let '(_, f', d') := cmd_track u f d in (f', d')
  | OnPick data =>
      match fsm_state f with
      | Some pick_category_state => (snd (pick_category data f), d)
      | _ => (f, d)
      end
  | OnCancel => (snd (cmd_cancel f), d)
  | OnText now text =>
      match fsm_state f with
      | Some enter_task_state =>
          let '(_, f', d') := enter_task now u text f d in (f', d')
      | _ => (f, d)
      end
  | OnStop now => (f, snd (cmd_stop now u d))
  | OnAddcat args => (f, snd (cmd_addcat u args d))
  | OnOther o => (f, step o d)
  end.

Definition handle_all (u : user_id) (evs : list event) (s : fsm * db)
  : fsm * db :=
  fold_left (fun acc ev => handle u ev acc) evs s.

(** Every callback query that reaches [pick_category] carries the
    identifier of a category row that exists when it arrives, and the
    engine calls in between are made for other users. *)
Fixpoint admissible (u : user_id) (evs : list event) (s : fsm * db)
  : Prop :=
  match evs with
  | [] => True
  | ev :: rest =>
      match ev with
      | OnPick data =>
          fsm_state (fst s) = Some pick_category_state ->
          exists c, In c (categories (snd s)) /\ int data = Some (cat_id c)
      | OnOther o => op_user o <> u
      | _ => True
      end
      /\ admissible u rest (handle u ev s)
  end.

(** The user's entries without stop timestamp. *)
Definition running (u : user_id) (d : db) : list time_entry :=
  filter (fun e => (te_user_id e =? u) && is_null (te_stopped_at e))
         (time_entries d).

Fixpoint no_space (s : string) : bool :=
  match s with
  | EmptyString => true
  | String c s' => negb (is_space c) && no_space s'
  end.

Fixpoint all_space (s : string) : bool :=
  match s with
  | EmptyString => true
  | String c s' => is_space c && all_space s'
  end.

(** What may follow a word: nothing, or text that starts with
    whitespace. *)
Definition word_end (s : string) : Prop :=
  s = EmptyString \/ exists c r, s = String c r /\ is_space c = true.

(** What every admissible sequence of events keeps: the database is
    reachable; the user's running entries refer to categories that exist
    and are at most one; none runs while a dialogue is open; and in state
    enter_task the context holds the identifier of a category that
    exists. *)
Definition bot_invariant (u : user_id) (s : fsm * db) : Prop :=
  reachable (snd s)
  /\ (forall e, In e (running u (snd s)) ->
                exists c, In c (categories (snd s))
                          /\ cat_id c = te_category_id e)
  /\ (List.length (running u (snd s)) <= 1)%nat
  /\ (fsm_state (fst s) <> None -> running u (snd s) = [])
  /\ (fsm_state (fst s) = Some enter_task_state ->
      exists c, In c (categories (snd s))
                /\ fsm_category_id (fst s) = Some (cat_id c)).

(** The condition [admissible] puts on one event. *)
Definition event_ok (u : user_id) (ev : event) (s : fsm * db) : Prop :=
  match ev with
  | OnPick data =>
      fsm_state (fst s) = Some pick_category_state ->
      exists c, In c (categories (snd s)) /\ int data = Some (cat_id c)
  | OnOther o => op_user o <> u
  | _ => True
  end.

(** The events that only the handlers with a state filter take up. *)
Definition needs_dialogue (ev : event) : bool :=
  match ev with
  | OnPick _ | OnText _ _ => true
  | _ => false
  end.

(** * Properties *)

(** ** The scenarios of the specification, run on the model *)

Example scenario_default_categories :
  map snd (get_categories 7 (ensure_default_categories 7 init_db))
  = ["work"; "study"; "sport"; "other"].
Proof. reflexivity. Qed.

Example scenario_write_report :
  let d := start_entry 1000000 7 1 "write report"
             (ensure_default_categories 7 init_db) in
  fst (stop_active_entry 11000000 7 d)
  = Some (mkStopped (mkActive 1 "write report" 1000000 "work") 10)
  /\ get_active_entry 7 (snd (stop_active_entry 11000000 7 d)) = None.
Proof. split; reflexivity. Qed.

Example scenario_music :
  let r := add_category 7 "Music" init_db in
  r = (true, mkDb [mkCategory 1 7 "music"] 1 [] 0)
  /\ add_category 7 "music" (snd r) = (false, snd r).
Proof. split; reflexivity. Qed.

Example scenario_ignored_insert_advances_counter :
  let d := ensure_default_categories 7 (ensure_default_categories 7 init_db) in
  map cat_id (categories d) = [1; 2; 3; 4]
  /\ categories (snd (add_category 7 "music" d))
     = categories d ++ [mkCategory 9 7 "music"].
Proof. split; reflexivity. Qed.

(** ** ORDER BY returns the same rows, in order *)

Section OrderByFacts.
Context {A : Type} (before : A -> A -> bool).

Lemma place_perm (x : A) (l : list A) :
  Permutation (x :: l) (place before x l).
Proof.
  induction l as [|y l IH]; simpl.
  - apply Permutation_refl.
  - destruct (before x y).
    + apply Permutation_refl.
    + eapply perm_trans; [apply perm_swap|].
      now apply perm_skip.
Qed.

Lemma order_by_perm (l : list A) : Permutation l (order_by before l).
Proof.
  induction l as [|x l IH]; simpl.
  - constructor.
  - eapply perm_trans; [apply perm_skip, IH|apply place_perm].
Qed.

Lemma order_by_In (l : list A) (x : A) :
  In x (order_by before l) <-> In x l.
Proof.
  split; apply Permutation_in;
    [apply Permutation_sym|]; apply order_by_perm.
Qed.

Hypothesis before_total : forall a b, before a b = false -> before b a = true.

Lemma place_hdrel (x y : A) (l : list A) :
  before y x = true -> HdRel (comes_before before) y l ->
  HdRel (comes_before before) y (place before x l).
Proof.
  intros Hyx Hl. destruct l as [|z l]; simpl.
  - now constructor.
  - destruct (before x z); constructor; trivial.
    now inversion Hl.
Qed.

Lemma place_sorted (x : A) (l : list A) :
  Sorted (comes_before before) l ->
  Sorted (comes_before before) (place before x l).
Proof.
  induction 1 as [|y l Hs IH Hh]; simpl.
  - repeat constructor.
  - destruct (before x y) eqn:E.
    + constructor; [now constructor|now constructor].
    + constructor; [exact IH|].
      apply place_hdrel; auto.
Qed.

Lemma order_by_sorted (l : list A) :
  Sorted (comes_before before) (order_by before l).
Proof.
  induction l as [|x l IH]; simpl; [constructor|now apply place_sorted].
Qed.

(** Rows that already come in order stay as they are. *)
Lemma order_by_sorted_id (l : list A) :
  StronglySorted (comes_before before) l -> order_by before l = l.
Proof.
  induction 1 as [|x l Hs IH Hall]; simpl; trivial.
  rewrite IH. destruct l as [|y l]; simpl; trivial.
  inversion Hall as [|? ? Hxy _]; subst.
  unfold comes_before in Hxy. now rewrite Hxy.
Qed.
End OrderByFacts.

(** ** What each write does to the two tables *)

Lemma insert_or_ignore_entries (u : user_id) (n : string) (d : db) :
  time_entries (insert_or_ignore_category u n d) = time_entries d
  /\ time_entries_seq (insert_or_ignore_category u n d) = time_entries_seq d.
Proof.
  unfold insert_or_ignore_category.
  now destruct (unique_conflict u n (categories d)).
Qed.

Lemma insert_or_ignore_present (u : user_id) (n : string) (d : db) :
  unique_conflict u n (categories d) = true ->
  categories (insert_or_ignore_category u n d) = categories d.
Proof. intros E. unfold insert_or_ignore_category. now rewrite E. Qed.

Lemma insert_or_ignore_absent (u : user_id) (n : string) (d : db) :
  unique_conflict u n (categories d) = false ->
  insert_or_ignore_category u n d = append_category u n d.
Proof. intros E. unfold insert_or_ignore_category. now rewrite E. Qed.

Lemma unique_conflict_app (u : user_id) (n : string) (l l' : list category) :
  unique_conflict u n (l ++ l')
  = unique_conflict u n l || unique_conflict u n l'.
Proof. apply existsb_app. Qed.

Lemma unique_conflict_self (u : user_id) (n : string) (i : Z) :
  unique_conflict u n [mkCategory i u n] = true.
Proof.
  unfold unique_conflict; simpl.
  now rewrite Z.eqb_refl, String.eqb_refl.
Qed.

(** Once a name is there for a user, [INSERT OR IGNORE] of any name keeps it
    there. *)
Lemma insert_or_ignore_keeps (u u' : user_id) (n n' : string) (d : db) :
  unique_conflict u n (categories d) = true ->
  unique_conflict u n (categories (insert_or_ignore_category u' n' d)) = true.
Proof.
  intros E. unfold insert_or_ignore_category.
  destruct (unique_conflict u' n' (categories d)); simpl; trivial.
  now rewrite unique_conflict_app, E.
Qed.

Lemma insert_or_ignore_adds (u : user_id) (n : string) (d : db) :
  unique_conflict u n (categories (insert_or_ignore_category u n d)) = true.
Proof.
  unfold insert_or_ignore_category.
  destruct (unique_conflict u n (categories d)) eqn:E; simpl; trivial.
  rewrite unique_conflict_app, unique_conflict_self. apply orb_true_r.
Qed.

(** ** Fresh identifiers *)

Section FreshRow.
Context {A : Type} (key : A -> Z).

Lemma fresh_key_not_in (l : list A) (s : Z) :
  Forall (fun x => key x <= s) l -> ~ In (s + 1) (map key l).
Proof.
  intros Hall Hin. apply in_map_iff in Hin as [x [Hx Hin]].
  rewrite Forall_forall in Hall. specialize (Hall x Hin). lia.
Qed.

Lemma fresh_key_nodup (l : list A) (s : Z) (y : A) :
  NoDup (map key l) -> Forall (fun x => key x <= s) l -> key y = s + 1 ->
  NoDup (map key (l ++ [y])).
Proof.
  intros Hnd Hall Hy. rewrite map_app. simpl.
  apply NoDup_app; trivial.
  - repeat constructor. intros [].
  - intros a Ha [Hb|[]]. subst a. rewrite Hy in Ha.
    now apply (fresh_key_not_in l s).
Qed.

Lemma fresh_key_bound (l : list A) (s : Z) (y : A) :
  Forall (fun x => key x <= s) l -> key y = s + 1 ->
  Forall (fun x => key x <= s + 1) (l ++ [y]).
Proof.
  intros Hall Hy. apply Forall_app. split.
  - eapply Forall_impl; [|exact Hall]. simpl. intros; lia.
  - repeat constructor. lia.
Qed.

(** Rows with unique keys: a key names its row. *)
Lemma nodup_key_inj (l : list A) (x y : A) :
  NoDup (map key l) -> In x l -> In y l -> key x = key y -> x = y.
Proof.
  induction l as [|z l IH]; simpl; [intros _ []|].
  intros Hnd Hx Hy E. inversion Hnd as [|? ? Hnot Hnd']; subst.
  destruct Hx as [->|Hx], Hy as [->|Hy]; trivial.
  - exfalso. apply Hnot. rewrite E. now apply in_map.
  - exfalso. apply Hnot. rewrite <- E. now apply in_map.
  - now apply IH.
Qed.
End FreshRow.

Lemma wf_init : wf init_db.
Proof. split; simpl; constructor. Qed.

Lemma wf_append_category (u : user_id) (n : string) (d : db) :
  wf d -> wf (append_category u n d).
Proof.
  intros [H1 H2 H3 H4 H5]. split; simpl; trivial.
  - now apply fresh_key_nodup with (s := categories_seq d).
  - now apply fresh_key_bound.
Qed.

Lemma wf_insert_or_ignore (u : user_id) (n : string) (d : db) :
  wf d -> wf (insert_or_ignore_category u n d).
Proof.
  intros H. unfold insert_or_ignore_category.
  destruct (unique_conflict u n (categories d)).
  - destruct H as [H1 H2 H3 H4 H5]. split; simpl; trivial.
    eapply Forall_impl; [|exact H2]. simpl. intros; lia.
  - now apply wf_append_category.
Qed.

Lemma wf_ensure_default_categories (u : user_id) (d : db) :
  wf d -> wf (ensure_default_categories u d).
Proof.
  unfold ensure_default_categories. revert d.
  induction DEFAULT_CATEGORIES as [|n l IH]; simpl; trivial.
  intros d H. now apply IH, wf_insert_or_ignore.
Qed.

Lemma wf_add_category (u : user_id) (name : string) (d : db) :
  wf d -> wf (snd (add_category u name d)).
Proof.
  intros H. unfold add_category, insert_category.
  destruct (unique_conflict u (lower name) (categories d)); simpl; trivial.
  now apply wf_append_category.
Qed.

Lemma wf_start_entry (now : timestamp) (u c : Z) (t : string) (d : db) :
  wf d -> wf (start_entry now u c t d).
Proof.
  intros [H1 H2 H3 H4 H5]. split; simpl; trivial.
  - now apply fresh_key_nodup with (s := time_entries_seq d).
  - now apply fresh_key_bound.
  - apply Forall_app. split; trivial. repeat constructor.
Qed.

Lemma update_stopped_ids (i : Z) (now : timestamp) (dur : Z) (d : db) :
  map te_id (time_entries (update_stopped i now dur d))
  = map te_id (time_entries d).
Proof.
  simpl. rewrite map_map. apply map_ext.
  intros e. now destruct (te_id e =? i).
Qed.

Lemma wf_update_stopped (i : Z) (now : timestamp) (dur : Z) (d : db) :
  wf d -> wf (update_stopped i now dur d).
Proof.
  intros [H1 H2 H3 H4 H5]. split; trivial.
  - now rewrite update_stopped_ids.
  - simpl. rewrite Forall_map. eapply Forall_impl; [|exact H4].
    simpl. intros e He. now destruct (te_id e =? i).
  - simpl. rewrite Forall_map. eapply Forall_impl; [|exact H5].
    simpl. intros e He. destruct (te_id e =? i); trivial.
    simpl. split; discriminate.
Qed.

Lemma wf_stop_active_entry (now : timestamp) (u : user_id) (d : db) :
  wf d -> wf (snd (stop_active_entry now u d)).
Proof.
  intros H. unfold stop_active_entry.
  destruct (get_active_entry u d); simpl; trivial.
  now apply wf_update_stopped.
Qed.

Lemma wf_step (o : op) (d : db) : wf d -> wf (step o d).
Proof.
  destruct o; simpl.
  - apply wf_ensure_default_categories.
  - apply wf_add_category.
  - apply wf_start_entry.
  - apply wf_stop_active_entry.
Qed.

Lemma run_app (ops ops' : list op) (d : db) :
  run (ops ++ ops') d = run ops' (run ops d).
Proof. apply fold_left_app. Qed.

Lemma reachable_init : reachable init_db.
Proof. now exists []. Qed.

Lemma reachable_step (o : op) (d : db) : reachable d -> reachable (step o d).
Proof.
  intros [ops ->]. exists (ops ++ [o]). now rewrite run_app.
Qed.

(** Induction over the calls that built a reachable database. *)
Lemma reachable_ind (P : db -> Prop) :
  P init_db -> (forall o d, reachable d -> P d -> P (step o d)) ->
  forall d, reachable d -> P d.
Proof.
  intros H0 HS d [ops ->].
  induction ops as [|o ops IH] using rev_ind; simpl; trivial.
  rewrite run_app. simpl. apply HS; trivial. now exists ops.
Qed.

Lemma reachable_wf (d : db) : reachable d -> wf d.
Proof.
  apply reachable_ind; [apply wf_init|].
  intros o d' _. apply wf_step.
Qed.

(** ** The join and the active entry *)

Lemma joined_with_In (cs : list category) (es : list time_entry)
  (te : time_entry) (c : category) :
  In (te, c) (joined_with cs es)
  <-> In te es /\ In c cs /\ te_category_id te = cat_id c.
Proof.
  unfold joined_with. rewrite in_flat_map. split.
  - intros [e [He Hin]]. apply in_map_iff in Hin as [c' [E Hc]].
    inversion E; subst. apply filter_In in Hc as [Hc Hid].
    apply Z.eqb_eq in Hid. auto.
  - intros [He [Hc Hid]]. exists te. split; trivial.
    apply in_map. apply filter_In. split; trivial. now apply Z.eqb_eq.
Qed.

Lemma filter_none {A : Type} (f : A -> bool) (l : list A) :
  (forall x, In x l -> f x = false) -> filter f l = [].
Proof.
  induction l as [|x l IH]; simpl; trivial.
  intros H. rewrite (H x) by now left. apply IH. intros; apply H. now right.
Qed.

(** What [get_active_entry] finds is a row of the table: an entry of the
    user with no stop timestamp, joined with the category it refers to. *)
Lemma get_active_entry_found (u : user_id) (d : db) (a : active_row) :
  get_active_entry u d = Some a ->
  exists te c,
    In te (time_entries d) /\ In c (categories d)
    /\ te_category_id te = cat_id c
    /\ te_user_id te = u /\ te_stopped_at te = None
    /\ a = to_active (te, c).
Proof.
  unfold get_active_entry.
  destruct (hd_error _) as [[te c]|] eqn:E; [|discriminate].
  intros [= <-]. exists te, c.
  assert (Hin : In (te, c) (filter (is_active_for u) (joined d))).
  { apply (order_by_In id_desc).
    destruct (order_by id_desc _); [discriminate|].
    simpl in E. inversion E. now left. }
  apply filter_In in Hin as [Hj Hact].
  apply joined_with_In in Hj as [H1 [H2 H3]].
  unfold is_active_for in Hact. simpl in Hact.
  apply andb_true_iff in Hact as [Hu Hs]. apply Z.eqb_eq in Hu.
  destruct (te_stopped_at te) eqn:Es; [discriminate|]. auto 7.
Qed.

Lemma get_active_entry_none (u : user_id) (d : db) :
  (forall r, In r (joined d) -> is_active_for u r = false) ->
  get_active_entry u d = None.
Proof.
  intros H. unfold get_active_entry.
  now rewrite (filter_none _ _ H).
Qed.

Lemma filter_unique_key (k : Z) (cs : list category) :
  NoDup (map cat_id cs) ->
  filter (fun c => k =? cat_id c) cs
  = match find (fun c => k =? cat_id c) cs with
    | Some c => [c]
    | None => []
    end.
Proof.
  induction cs as [|c cs IH]; simpl; trivial.
  intros Hnd. inversion Hnd as [|? ? Hnot Hnd']; subst.
  destruct (k =? cat_id c) eqn:E; [|now apply IH].
  f_equal. apply filter_none. intros c' Hc'.
  apply Z.eqb_neq. intros ->. apply Z.eqb_eq in E.
  apply Hnot. rewrite <- E. now apply in_map.
Qed.

Lemma category_of_Some (cs : list category) (e : time_entry) (c : category) :
  NoDup (map cat_id cs) ->
  category_of cs e = Some c
  <-> In c cs /\ cat_id c = te_category_id e.
Proof.
  intros Hnd. unfold category_of. split.
  - intros H. apply find_some in H as [Hin E].
    apply Z.eqb_eq in E. auto.
  - intros [Hin E].
    destruct (find _ cs) as [c'|] eqn:F.
    + apply find_some in F as [Hin' E']. apply Z.eqb_eq in E'.
      f_equal. apply (nodup_key_inj cat_id cs); trivial. congruence.
    + exfalso. apply (find_none _ _ F) in Hin.
      apply Z.eqb_neq in Hin. congruence.
Qed.

(** With unique identifiers, [UPDATE ... WHERE id = ?] rewrites one row. *)
Lemma update_one_row (f : time_entry -> time_entry) (e : time_entry)
  (l1 l2 : list time_entry) :
  NoDup (map te_id (l1 ++ e :: l2)) ->
  map (fun x => if te_id x =? te_id e then f x else x) (l1 ++ e :: l2)
  = l1 ++ f e :: l2.
Proof.
  intros Hnd. rewrite map_app. simpl. rewrite Z.eqb_refl.
  assert (Hother : forall l, (forall x, In x l -> te_id x <> te_id e) ->
            map (fun x => if te_id x =? te_id e then f x else x) l = l).
  { intros l Hl. rewrite <- (map_id l) at 2. apply map_ext_in.
    intros x Hx. apply Hl in Hx. apply Z.eqb_neq in Hx. now rewrite Hx. }
  rewrite map_app in Hnd. simpl in Hnd.
  pose proof (NoDup_remove_2 _ _ _ Hnd) as Hnot.
  rewrite !Hother; trivial.
  - intros x Hx E. apply Hnot. apply in_or_app. right.
    rewrite <- E. now apply in_map.
  - intros x Hx E. apply Hnot. apply in_or_app. left.
    rewrite <- E. now apply in_map.
Qed.

(** ** Stopping *)

Lemma elapsed_seconds_forward (now started : timestamp) :
  started <= now ->
  0 <= elapsed_seconds now started
  /\ elapsed_seconds now started = (now - started) / 1000000.
Proof.
  intros H. unfold elapsed_seconds. split.
  - apply Z.quot_pos; lia.
  - apply Z.quot_div_nonneg; lia.
Qed.

Lemma elapsed_seconds_backward (now started : timestamp) :
  now + 1000000 <= started -> elapsed_seconds now started < 0.
Proof.
  intros H. unfold elapsed_seconds.
  replace (now - started) with (- (started - now)) by lia.
  rewrite Z.quot_opp_l by lia.
  assert (0 < (started - now) ÷ 1000000) by (apply Z.quot_str_pos; lia).
  lia.
Qed.

(** On a database with unique identifiers, [stop_active_entry] rewrites the
    one row that [get_active_entry] found. *)
Lemma stop_active_entry_rewrites (now : timestamp) (u : user_id) (d : db)
  (a : active_row) :
  wf d -> get_active_entry u d = Some a ->
  exists l1 e l2,
    time_entries d = l1 ++ e :: l2
    /\ te_id e = ar_id a /\ te_user_id e = u
    /\ te_stopped_at e = None /\ te_started_at e = ar_started_at a
    /\ time_entries (snd (stop_active_entry now u d))
       = l1 ++ mkEntry (te_id e) u (te_category_id e) (te_task_name e)
                       (te_started_at e) (Some now)
                       (Some (elapsed_seconds now (ar_started_at a)))
            :: l2
    /\ categories (snd (stop_active_entry now u d)) = categories d.
Proof.
  intros Hwf Ha. unfold stop_active_entry. rewrite Ha. simpl.
  destruct (get_active_entry_found _ _ _ Ha)
    as [te [c [Hte [Hc [Hid [Hu [Hs ->]]]]]]].
  destruct (in_split _ _ Hte) as [l1 [l2 E]].
  exists l1, te, l2. simpl. repeat split; trivial.
  rewrite E, update_one_row.
  - unfold set_stopped. now rewrite Hu.
  - rewrite <- E. apply (wf_te_nodup _ Hwf).
Qed.

(** C1 (as amended).  When [get_active_entry] finds an entry for the user,
    [stop_active_entry] returns it with its duration and rewrites exactly
    that row of a reachable database: the stop timestamp becomes the current
    time and the duration becomes (stop - start) in whole seconds, truncated
    toward zero.  When the stop time is not before the start time this is
    the floor and it is not negative.  There is no clamp: when the clock
    reads a stop time a second or more before the start time, the stored
    duration is negative. *)
Theorem stop_active_entry_duration (now : timestamp) (u : user_id) (d : db)
  (a : active_row) :
  reachable d ->
  get_active_entry u d = Some a ->
  let duration := elapsed_seconds now (ar_started_at a) in
  fst (stop_active_entry now u d) = Some (mkStopped a duration)
  /\ (exists l1 e l2,
         time_entries d = l1 ++ e :: l2
         /\ te_id e = ar_id a /\ te_user_id e = u
         /\ te_stopped_at e = None /\ te_started_at e = ar_started_at a
         /\ time_entries (snd (stop_active_entry now u d))
            = l1 ++ mkEntry (te_id e) u (te_category_id e) (te_task_name e)
                            (te_started_at e) (Some now) (Some duration)
                 :: l2
         /\ categories (snd (stop_active_entry now u d)) = categories d)
  /\ duration = (now - ar_started_at a) ÷ 1000000
  /\ (ar_started_at a <= now ->
      0 <= duration /\ duration = (now - ar_started_at a) / 1000000)
  /\ (now + 1000000 <= ar_started_at a -> duration < 0).
Proof.
  intros Hr Ha duration. apply reachable_wf in Hr.
  split; [|split; [|split; [|split]]].
  - unfold stop_active_entry. now rewrite Ha.
  - now apply stop_active_entry_rewrites.
  - reflexivity.
  - apply elapsed_seconds_forward.
  - apply elapsed_seconds_backward.
Qed.

Lemma stop_active_entry_duration_witness :
  let d := run [EnsureDefaultCategories 1; StartEntry 3000000 1 1 "report"]
               init_db in
  let a := mkActive 1 "report" 3000000 "work" in
  reachable d
  /\ get_active_entry 1 d = Some a
  /\ fst (stop_active_entry 13500000 1 d) = Some (mkStopped a 10)
  /\ time_entries (snd (stop_active_entry 13500000 1 d))
     = [mkEntry 1 1 1 "report" 3000000 (Some 13500000) (Some 10)].
Proof.
  intros d a.
  assert (Hr : reachable d).
  { exists [EnsureDefaultCategories 1; StartEntry 3000000 1 1 "report"].
    reflexivity. }
  assert (Ha : get_active_entry 1 d = Some a) by reflexivity.
  destruct (stop_active_entry_duration 13500000 1 d a Hr Ha) as [H1 _].
  repeat split; trivial.
Defined.

(** C1 (as stated) fails: an entry started at second 10 and stopped when the
    clock reads second 5 is stored with the duration -5. *)
Lemma stop_active_entry_negative_duration :
  let d := run [EnsureDefaultCategories 1; StartEntry 10000000 1 1 "report"]
               init_db in
  get_active_entry 1 d = Some (mkActive 1 "report" 10000000 "work")
  /\ stop_active_entry 5000000 1 d
     = (Some (mkStopped (mkActive 1 "report" 10000000 "work") (-5)),
        mkDb (categories d) (categories_seq d)
             [mkEntry 1 1 1 "report" 10000000 (Some 5000000) (Some (-5))]
             (time_entries_seq d))
  /\ ~ (forall e x,
          In e (time_entries (snd (stop_active_entry 5000000 1 d))) ->
          te_duration_seconds e = Some x -> 0 <= x).
Proof.
  intros d. split; [reflexivity|]. split; [reflexivity|].
  intros H.
  specialize (H (mkEntry 1 1 1 "report" 10000000 (Some 5000000) (Some (-5)))
                (-5)).
  assert (0 <= -5); [|lia].
  apply H; [now left|reflexivity].
Qed.

(** ** Starting *)

(** A row that sorts strictly before all others comes out first, wherever
    it stood. *)
Lemma order_by_last_first {A : Type} (before : A -> A -> bool) (l : list A)
  (x : A) :
  (forall y, In y l -> before y x = false) ->
  exists rest, order_by before (l ++ [x]) = x :: rest.
Proof.
  unfold order_by. rewrite fold_right_app. simpl.
  induction l as [|y l IH]; intros H; simpl; [now exists []|].
  destruct IH as [rest E]; [intros; apply H; now right|].
  rewrite E. simpl. rewrite (H y) by now left. eauto.
Qed.

Lemma joined_with_snoc (cs : list category) (es : list time_entry)
  (e : time_entry) (c : category) :
  NoDup (map cat_id cs) -> In c cs -> cat_id c = te_category_id e ->
  joined_with cs (es ++ [e]) = joined_with cs es ++ [(e, c)].
Proof.
  intros Hnd Hc Hid. unfold joined_with. rewrite flat_map_app. simpl.
  rewrite filter_unique_key by trivial.
  fold (category_of cs e).
  now rewrite (proj2 (category_of_Some cs e c Hnd) (conj Hc Hid)).
Qed.

(** C2 (as amended).  [start_entry] checks neither the task name nor the
    owner of the category: for every user, every task name (the empty one
    too) and every identifier of an existing category row (whoever owns it),
    on a reachable database it leaves the categories alone and appends
    exactly one entry, under an identifier no entry had, with the current
    time as start timestamp and neither stop timestamp nor duration; that
    entry is then the user's active entry. *)
Theorem start_entry_appends (now : timestamp) (u : user_id)
  (task_name : string) (d : db) (c : category) :
  reachable d ->
  In c (categories d) ->
  let d' := start_entry now u (cat_id c) task_name d in
  let i := time_entries_seq d + 1 in
  categories d' = categories d
  /\ time_entries d'
     = time_entries d ++ [mkEntry i u (cat_id c) task_name now None None]
  /\ ~ In i (map te_id (time_entries d))
  /\ get_active_entry u d' = Some (mkActive i task_name now (cat_name c)).
Proof.
  intros Hr Hc d' i. pose proof (reachable_wf d Hr) as Hwf.
  split; [reflexivity|]. split; [reflexivity|]. split.
  - apply fresh_key_not_in. apply (wf_te_seq d Hwf).
  - unfold get_active_entry, joined. simpl.
    rewrite (joined_with_snoc _ _ _ c)
      by (trivial; apply (wf_cat_nodup d Hwf)).
    rewrite filter_app. simpl.
    unfold is_active_for at 2. simpl. rewrite Z.eqb_refl. simpl.
    subst i.
    destruct (order_by_last_first id_desc
                (filter (is_active_for u)
                        (joined_with (categories d) (time_entries d)))
                (mkEntry (time_entries_seq d + 1) u (cat_id c) task_name now
                         None None, c))
      as [rest ->]; [|reflexivity].
    intros [te c'] Hin. apply filter_In in Hin as [Hin _].
    apply joined_with_In in Hin as [Hte _].
    unfold id_desc. simpl. apply Z.leb_gt.
    pose proof (wf_te_seq d Hwf) as Hseq. rewrite Forall_forall in Hseq.
    specialize (Hseq te Hte). lia.
Qed.

Lemma start_entry_appends_witness :
  let d := run [EnsureDefaultCategories 1; EnsureDefaultCategories 2]
               init_db in
  reachable d
  /\ In (mkCategory 6 2 "study") (categories d)
  /\ time_entries (start_entry 42 1 6 "" d)
     = [mkEntry 1 1 6 "" 42 None None]
  /\ get_active_entry 1 (start_entry 42 1 6 "" d)
     = Some (mkActive 1 "" 42 "study").
Proof.
  intros d.
  assert (Hr : reachable d).
  { exists [EnsureDefaultCategories 1; EnsureDefaultCategories 2].
    reflexivity. }
  assert (Hc : In (mkCategory 6 2 "study") (categories d)).
  { do 5 right. now left. }
  destruct (start_entry_appends 42 1 "" d (mkCategory 6 2 "study") Hr Hc)
    as [_ [He [_ Ha]]].
  split; [exact Hr|]. split; [exact Hc|]. split; [exact He|exact Ha].
Defined.

(** C2 (as stated) fails: an empty task name is accepted, and so is a
    category that belongs to another user; each call creates an entry. *)
Lemma start_entry_accepts_anything :
  let d := run [EnsureDefaultCategories 1; EnsureDefaultCategories 2]
               init_db in
  time_entries d = []
  /\ time_entries (start_entry 42 1 1 "" d)
     = [mkEntry 1 1 1 "" 42 None None]
  /\ filter (fun c => cat_id c =? 5) (categories d) = [mkCategory 5 2 "work"]
  /\ time_entries (start_entry 42 1 5 "read" d)
     = [mkEntry 1 1 5 "read" 42 None None].
Proof. repeat split. Qed.

(** ** Categories *)

Lemma unique_conflict_spec (u : user_id) (n : string) (cs : list category) :
  unique_conflict u n cs = true
  <-> exists c, In c cs /\ cat_user_id c = u /\ cat_name c = n.
Proof.
  unfold unique_conflict. rewrite existsb_exists. split.
  - intros [c [Hin H]]. apply andb_true_iff in H as [Hu Hn].
    apply Z.eqb_eq in Hu. apply String.eqb_eq in Hn. eauto.
  - intros [c [Hin [Hu Hn]]]. exists c. split; trivial.
    apply andb_true_iff. split; [now apply Z.eqb_eq|now apply String.eqb_eq].
Qed.

Lemma unique_conflict_false (u : user_id) (n : string) (cs : list category) :
  ~ (exists c, In c cs /\ cat_user_id c = u /\ cat_name c = n) ->
  unique_conflict u n cs = false.
Proof.
  intros H. destruct (unique_conflict u n cs) eqn:E; trivial.
  apply unique_conflict_spec in E. contradiction.
Qed.

Lemma lower_ascii_idem (c : ascii) :
  lower_ascii (lower_ascii c) = lower_ascii c.
Proof.
  destruct c as [[] [] [] [] [] [] [] []]; reflexivity.
Qed.

Lemma lower_idem (s : string) : lower (lower s) = lower s.
Proof.
  induction s as [|c s IH]; simpl; trivial.
  now rewrite lower_ascii_idem, IH.
Qed.


Lemma lower_empty (s : string) : lower s = "" <-> s = "".
Proof. destruct s; simpl; split; trivial; discriminate. Qed.

Lemma add_category_unfold (u : user_id) (name : string) (d : db) :
  add_category u name d
  = (if unique_conflict u (lower name) (categories d) then (false, d)
     else (true,
           mkDb (categories d
                 ++ [mkCategory (categories_seq d + 1) u (lower name)])
                (categories_seq d + 1) (time_entries d)
                (time_entries_seq d))).
Proof.
  unfold add_category, insert_category.
  now destruct (unique_conflict u (lower name) (categories d)).
Qed.







(** ** The default categories *)

Section EnsureNames.
Variable u : user_id.

Lemma ensure_entries (names : list string) (d : db) :
  time_entries (insert_or_ignore_all u names d) = time_entries d.
Proof.
  revert d. induction names as [|n l IH]; simpl; trivial.
  intros d. rewrite IH. apply insert_or_ignore_entries.
Qed.

Lemma ensure_keeps (names : list string) (d : db) (n : string) :
  unique_conflict u n (categories d) = true ->
  unique_conflict u n (categories (insert_or_ignore_all u names d)) = true.
Proof.
  revert d. induction names as [|m l IH]; simpl; trivial.
  intros d H. now apply IH, insert_or_ignore_keeps.
Qed.

Lemma ensure_all_present (names : list string) (d : db) (n : string) :
  In n names ->
  unique_conflict u n (categories (insert_or_ignore_all u names d)) = true.
Proof.
  revert d. induction names as [|m l IH]; simpl; [intros _ []|].
  intros d [->|Hin].
  - apply ensure_keeps, insert_or_ignore_adds.
  - now apply IH.
Qed.

Lemma ensure_present_noop (names : list string) (d : db) :
  (forall n, In n names -> unique_conflict u n (categories d) = true) ->
  categories (insert_or_ignore_all u names d) = categories d.
Proof.
  revert d. induction names as [|m l IH]; simpl; trivial.
  intros d H.
  assert (E : categories (insert_or_ignore_category u m d) = categories d)
    by (apply insert_or_ignore_present, H; now left).
  rewrite IH; trivial.
  intros n Hn. rewrite E. apply H. now right.
Qed.
End EnsureNames.

(** Calling [ensure_default_categories] a second time changes no row. *)
Lemma ensure_default_categories_again (u : user_id) (d : db) :
  let d1 := ensure_default_categories u d in
  categories (ensure_default_categories u d1) = categories d1
  /\ time_entries (ensure_default_categories u d1) = time_entries d1.
Proof.
  intros d1. split.
  - apply ensure_present_noop. intros n Hn.
    now apply ensure_all_present.
  - apply ensure_entries.
Qed.

Lemma get_categories_same_table (u : user_id) (d d' : db) :
  categories d' = categories d -> get_categories u d' = get_categories u d.
Proof. unfold get_categories. now intros ->. Qed.

Ltac solve_fresh Hfree :=
  simpl; rewrite ?unique_conflict_app, Hfree; simpl;
  rewrite ?Z.eqb_refl; reflexivity.

(** The four rows a user without categories receives. *)
Lemma ensure_default_categories_fresh (u : user_id) (d : db) :
  (forall c, In c (categories d) -> cat_user_id c <> u) ->
  let s := categories_seq d in
  categories (ensure_default_categories u d)
  = categories d
    ++ [mkCategory (s + 1) u "work"; mkCategory (s + 1 + 1) u "study";
        mkCategory (s + 1 + 1 + 1) u "sport";
        mkCategory (s + 1 + 1 + 1 + 1) u "other"].
Proof.
  intros H s.
  assert (Hfree : forall n, unique_conflict u n (categories d) = false).
  { intros n. apply unique_conflict_false. intros [c [Hin [Hu _]]].
    now apply (H c). }
  pose (fresh := fun n d' E => insert_or_ignore_absent u n d' E).
  unfold ensure_default_categories, DEFAULT_CATEGORIES. simpl.
  rewrite (fresh "work" d) by apply Hfree.
  rewrite (fresh "study" (append_category u "work" d)) by solve_fresh Hfree.
  rewrite (fresh "sport") by solve_fresh Hfree.
  rewrite (fresh "other") by solve_fresh Hfree.
  simpl. rewrite <- !app_assoc. reflexivity.
Qed.

(** C5.  For a user without categories, [ensure_default_categories] followed
    by [get_categories] (the spec's list_categories) yields work, study,
    sport, other, in that order, under four distinct fresh identifiers; a
    second [ensure_default_categories] changes no row of either table, so
    no duplicate appears and [get_categories] returns the same list. *)
Theorem ensure_default_categories_idempotent (u : user_id) (d : db) :
  (forall c, In c (categories d) -> cat_user_id c <> u) ->
  let d1 := ensure_default_categories u d in
  let d2 := ensure_default_categories u d1 in
  map snd (get_categories u d1) = ["work"; "study"; "sport"; "other"]
  /\ map snd (get_categories u d1) = DEFAULT_CATEGORIES
  /\ NoDup (map snd (get_categories u d1))
  /\ NoDup (map fst (get_categories u d1))
  /\ categories d2 = categories d1
  /\ time_entries d2 = time_entries d1
  /\ get_categories u d2 = get_categories u d1.
Proof.
  intros H d1 d2.
  assert (Hnone : filter (fun c => cat_user_id c =? u) (categories d) = []).
  { apply filter_none. intros c Hc. apply Z.eqb_neq. now apply H. }
  assert (Hget : get_categories u d1
                 = [(categories_seq d + 1, "work");
                    (categories_seq d + 1 + 1, "study");
                    (categories_seq d + 1 + 1 + 1, "sport");
                    (categories_seq d + 1 + 1 + 1 + 1, "other")]).
  { unfold get_categories, d1.
    rewrite (ensure_default_categories_fresh u d H).
    rewrite filter_app, Hnone.
    cbn [filter app cat_user_id]. rewrite !Z.eqb_refl.
    rewrite order_by_sorted_id; [reflexivity|].
    unfold comes_before.
    repeat (constructor; [|repeat constructor; simpl; apply Z.leb_le; lia]).
    constructor. }
  destruct (ensure_default_categories_again u d) as [Hc He].
  assert (Hsame : get_categories u d2 = get_categories u d1)
    by now apply get_categories_same_table.
  rewrite Hget. simpl. repeat split; trivial.
  - repeat constructor; simpl; intuition discriminate.
  - repeat constructor; simpl; intuition lia.
  - now rewrite <- Hget.
Qed.

Lemma ensure_default_categories_idempotent_witness :
  let d := run [EnsureDefaultCategories 1; AddCategory 1 "music"] init_db in
  let d1 := ensure_default_categories 2 d in
  (forall c, In c (categories d) -> cat_user_id c <> 2)
  /\ get_categories 2 d1
     = [(6, "work"); (7, "study"); (8, "sport"); (9, "other")]
  /\ get_categories 2 (ensure_default_categories 2 d1) = get_categories 2 d1.
Proof.
  intros d d1.
  assert (H : forall c, In c (categories d) -> cat_user_id c <> 2).
  { intros c Hc. simpl in Hc.
    repeat (destruct Hc as [<-|Hc]; [discriminate|]). destruct Hc. }
  split; [exact H|]. split; [reflexivity|].
  apply (ensure_default_categories_idempotent 2 d H).
Defined.

(** ** Stopping without an active entry *)

(** C6.  When no entry of the user lacks a stop timestamp,
    [stop_active_entry] returns [None] (a result, not an error) and the
    database it leaves is the one it was given. *)
Theorem stop_active_entry_nothing_to_stop (now : timestamp) (u : user_id)
  (d : db) :
  (forall e, In e (time_entries d) -> te_user_id e = u ->
             te_stopped_at e <> None) ->
  stop_active_entry now u d = (None, d).
Proof.
  intros H. unfold stop_active_entry.
  rewrite get_active_entry_none; trivial.
  intros [te c] Hin. apply joined_with_In in Hin as [Hte _].
  unfold is_active_for. simpl.
  destruct (te_user_id te =? u) eqn:Eu; trivial.
  apply Z.eqb_eq in Eu. specialize (H te Hte Eu).
  now destruct (te_stopped_at te).
Qed.

Lemma stop_active_entry_nothing_to_stop_witness :
  let d := run [EnsureDefaultCategories 1; StartEntry 0 1 1 "a";
                StopActiveEntry 9000000 1; EnsureDefaultCategories 2;
                StartEntry 5 2 5 "b"] init_db in
  (forall e, In e (time_entries d) -> te_user_id e = 1 ->
             te_stopped_at e <> None)
  /\ stop_active_entry 20000000 1 d = (None, d).
Proof.
  intros d.
  assert (H : forall e, In e (time_entries d) -> te_user_id e = 1 ->
                        te_stopped_at e <> None).
  { intros e He. simpl in He.
    destruct He as [<-|[<-|[]]]; simpl; [discriminate|lia]. }
  split; [exact H|].
  exact (stop_active_entry_nothing_to_stop 20000000 1 d H).
Defined.

(** ** Stop timestamp and duration go together *)

Lemma ensure_default_categories_entries (u : user_id) (d : db) :
  time_entries (ensure_default_categories u d) = time_entries d.
Proof. apply ensure_entries. Qed.

Lemma add_category_entries (u : user_id) (name : string) (d : db) :
  time_entries (snd (add_category u name d)) = time_entries d.
Proof.
  unfold add_category, insert_category.
  now destruct (unique_conflict u (lower name) (categories d)).
Qed.

(** A stopped row is out of reach of every later call. *)
Lemma stopped_row_stays (o : op) (d : db) (e : time_entry) :
  wf d -> In e (time_entries d) -> te_stopped_at e <> None ->
  In e (time_entries (step o d)).
Proof.
  intros Hwf He Hs. destruct o as [u|u name|now u c t|now u]; simpl.
  - now rewrite ensure_default_categories_entries.
  - now rewrite add_category_entries.
  - apply in_or_app. now left.
  - unfold stop_active_entry.
    destruct (get_active_entry u d) as [a|] eqn:Ea; simpl; trivial.
    destruct (get_active_entry_found _ _ _ Ea)
      as [te [c [Hte [_ [_ [_ [Hnull ->]]]]]]].
    simpl. apply in_map_iff. exists e. split; trivial.
    destruct (te_id e =? te_id te) eqn:E; trivial.
    apply Z.eqb_eq in E.
    assert (e = te)
      by (apply (nodup_key_inj te_id (time_entries d)); trivial;
          apply (wf_te_nodup _ Hwf)).
    subst e. contradiction.
Qed.

Lemma stopped_row_stays_run (ops : list op) (d : db) (e : time_entry) :
  wf d -> In e (time_entries d) -> te_stopped_at e <> None ->
  In e (time_entries (run ops d)).
Proof.
  revert d. induction ops as [|o ops IH]; simpl; trivial.
  intros d Hwf He Hs. apply IH; trivial.
  - now apply wf_step.
  - now apply stopped_row_stays.
Qed.

(** C7.  After any sequence of engine calls on a fresh database, every entry
    has a null duration exactly when it has a null stop timestamp.
    [start_entry] appends an entry with both null.  [stop_active_entry],
    when it finds an entry, replaces in one transition the row that had both
    null by the row that has both set, so no state shows one without the
    other.  A row that has a stop timestamp is found unchanged after any
    further sequence of calls. *)
Theorem duration_null_iff_stop_null (ops : list op) :
  let d := run ops init_db in
  (forall e, In e (time_entries d) ->
             (te_duration_seconds e = None <-> te_stopped_at e = None))
  /\ (forall now u c t,
        exists e, time_entries (start_entry now u c t d)
                  = time_entries d ++ [e]
                  /\ te_stopped_at e = None /\ te_duration_seconds e = None)
  /\ (forall now u a,
        get_active_entry u d = Some a ->
        exists l1 e e' l2,
          time_entries d = l1 ++ e :: l2
          /\ te_stopped_at e = None /\ te_duration_seconds e = None
          /\ time_entries (snd (stop_active_entry now u d)) = l1 ++ e' :: l2
          /\ te_id e' = te_id e
          /\ te_stopped_at e' = Some now
          /\ te_duration_seconds e'
             = Some (elapsed_seconds now (te_started_at e)))
  /\ (forall ops' e,
        In e (time_entries d) -> te_stopped_at e <> None ->
        In e (time_entries (run ops' d))).
Proof.
  intros d.
  assert (Hr : reachable d) by now exists ops.
  pose proof (reachable_wf d Hr) as Hwf.
  pose proof (wf_te_stop d Hwf) as Hstop. rewrite Forall_forall in Hstop.
  split; [|split; [|split]].
  - intros e He. symmetry. now apply Hstop.
  - intros now u c t. eexists. simpl. repeat split.
  - intros now u a Ha.
    destruct (stop_active_entry_rewrites now u d a Hwf Ha)
      as [l1 [e [l2 [E [Hid [Hu [Hs [Hst [E' _]]]]]]]]].
    exists l1, e,
      (mkEntry (te_id e) u (te_category_id e) (te_task_name e)
               (te_started_at e) (Some now)
               (Some (elapsed_seconds now (ar_started_at a)))),
      l2.
    split; [exact E|]. split; [exact Hs|]. split.
    { apply Hstop; trivial. rewrite E. apply in_elt. }
    split; [exact E'|]. simpl. now rewrite Hst.
  - intros ops' e He Hs. now apply stopped_row_stays_run.
Qed.

(** ** Entries whose category does not exist *)

Lemma joined_with_skip (cs : list category) (l1 l2 : list time_entry)
  (e : time_entry) :
  (forall c, In c cs -> cat_id c <> te_category_id e) ->
  joined_with cs (l1 ++ e :: l2) = joined_with cs (l1 ++ l2).
Proof.
  intros H. unfold joined_with. rewrite !flat_map_app. simpl.
  rewrite (filter_none (fun c => te_category_id e =? cat_id c)); trivial.
  intros c Hc. apply Z.eqb_neq. intros E. now apply (H c).
Qed.

(** The row [UPDATE ... WHERE id = ?] leaves alone. *)
Lemma update_stopped_other (i : Z) (now : timestamp) (dur : Z) (d : db)
  (e : time_entry) :
  In e (time_entries d) -> te_id e <> i ->
  In e (time_entries (update_stopped i now dur d)).
Proof.
  intros He Hi. simpl. apply in_map_iff. exists e. split; trivial.
  apply Z.eqb_neq in Hi. now rewrite Hi.
Qed.

(** C10 (as amended).  Take an entry of a reachable database whose
    category_id matches no category row.  The three joining queries answer
    as if the entry were not in the table, and no call of
    [stop_active_entry], for any user at any time, touches it.
    [stop_active_entry] reports [None] and changes nothing, although the
    entry has no stop timestamp, when every entry of its user that lacks a
    stop timestamp is of this kind (in particular when it is the user's
    only one); otherwise the call may stop another entry of the user,
    never this one. *)
Theorem dangling_entry_invisible (d : db) (l1 l2 : list time_entry)
  (e : time_entry) :
  reachable d ->
  time_entries d = l1 ++ e :: l2 ->
  (forall c, In c (categories d) -> cat_id c <> te_category_id e) ->
  let without :=
    mkDb (categories d) (categories_seq d) (l1 ++ l2) (time_entries_seq d) in
  (forall u, get_active_entry u d = get_active_entry u without)
  /\ (forall now u days, get_stats now u days d = get_stats now u days without)
  /\ (forall u limit, get_history u limit d = get_history u limit without)
  /\ (forall now u, In e (time_entries (snd (stop_active_entry now u d))))
  /\ (te_stopped_at e = None ->
      (forall e', In e' (time_entries d) ->
                  te_user_id e' = te_user_id e -> te_stopped_at e' = None ->
                  forall c, In c (categories d) ->
                            cat_id c <> te_category_id e') ->
      forall now, stop_active_entry now (te_user_id e) d = (None, d)).
Proof.
  intros Hr E Hdangling without.
  assert (Hj : joined d = joined without).
  { unfold joined. simpl. rewrite E. now apply joined_with_skip. }
  assert (He : In e (time_entries d)) by (rewrite E; apply in_elt).
  split; [|split; [|split; [|split]]].
  - intros u. unfold get_active_entry. now rewrite Hj.
  - intros now u days. unfold get_stats, stats_rows. now rewrite Hj.
  - intros u limit. unfold get_history. now rewrite Hj.
  - intros now u. unfold stop_active_entry.
    destruct (get_active_entry u d) as [a|] eqn:Ea; simpl; trivial.
    destruct (get_active_entry_found _ _ _ Ea)
      as [te [c [Hte [Hc [Hid [_ [_ ->]]]]]]].
    apply update_stopped_other; trivial. simpl. intros Eid.
    assert (e = te).
    { apply (nodup_key_inj te_id (time_entries d)); trivial.
      apply wf_te_nodup. now apply reachable_wf. }
    subst te. now apply (Hdangling c).
  - intros _ Hall now. unfold stop_active_entry.
    rewrite get_active_entry_none; trivial.
    intros [te c] Hin. apply joined_with_In in Hin as [Hte [Hc Hid]].
    unfold is_active_for. simpl.
    destruct (te_user_id te =? te_user_id e) eqn:Eu; trivial.
    apply Z.eqb_eq in Eu.
    destruct (te_stopped_at te) eqn:Es; trivial.
    exfalso. now apply (Hall te Hte Eu Es c).
Qed.

Lemma dangling_entry_invisible_witness :
  let e := mkEntry 1 1 7 "report" 0 None None in
  let d := run [StartEntry 0 1 7 "report"; EnsureDefaultCategories 1]
               init_db in
  reachable d
  /\ time_entries d = [] ++ e :: []
  /\ (forall c, In c (categories d) -> cat_id c <> te_category_id e)
  /\ get_active_entry 1 d = None
  /\ stop_active_entry 60000000 1 d = (None, d).
Proof.
  intros e d.
  assert (Hr : reachable d).
  { exists [StartEntry 0 1 7 "report"; EnsureDefaultCategories 1].
    reflexivity. }
  assert (E : time_entries d = [] ++ e :: []) by reflexivity.
  assert (Hd : forall c, In c (categories d) -> cat_id c <> te_category_id e).
  { intros c Hc. simpl in Hc.
    repeat (destruct Hc as [<-|Hc]; [simpl; lia|]). destruct Hc. }
  destruct (dangling_entry_invisible d [] [] e Hr E Hd)
    as [Ha [_ [_ [_ Hstop]]]].
  split; [exact Hr|]. split; [exact E|]. split; [exact Hd|]. split.
  - rewrite Ha. reflexivity.
  - apply Hstop; [reflexivity|].
    intros e' He' _ _. simpl in He'. destruct He' as [<-|[]]. exact Hd.
Defined.

(** C10 (as stated) fails: user 1 has an entry under category 99, which
    does not exist, and a later entry under the existing category 1, both
    without stop timestamp.  [stop_active_entry] does not report "no active
    entry": it stops the second entry and leaves the first as it is. *)
Lemma stop_active_entry_passes_over_dangling :
  let d := run [EnsureDefaultCategories 1; StartEntry 0 1 99 "ghost";
                StartEntry 5000000 1 1 "report"] init_db in
  let e := mkEntry 1 1 99 "ghost" 0 None None in
  In e (time_entries d)
  /\ filter (fun c => cat_id c =? te_category_id e) (categories d) = []
  /\ te_stopped_at e = None
  /\ stop_active_entry 9000000 1 d
     = (Some (mkStopped (mkActive 2 "report" 5000000 "work") 4),
        mkDb (categories d) (categories_seq d)
             [e; mkEntry 2 1 1 "report" 5000000 (Some 9000000) (Some 4)]
             (time_entries_seq d))
  /\ fst (stop_active_entry 9000000 1 d) <> None.
Proof.
  intros d e. split; [now left|]. split; [reflexivity|].
  split; [reflexivity|]. split; [reflexivity|]. discriminate.
Qed.

(** ** One user's calls and another user's queries *)

Lemma filter_andb {A : Type} (f g : A -> bool) (l : list A) :
  filter (fun x => f x && g x) l = filter g (filter f l).
Proof.
  induction l as [|x l IH]; simpl; trivial.
  destruct (f x); simpl; [destruct (g x)|]; now rewrite IH.
Qed.

(** Selecting joined rows by their entry selects entries before the join. *)
Lemma joined_with_filter (p : time_entry -> bool) (cs : list category)
  (es : list time_entry) :
  filter (fun r => p (fst r)) (joined_with cs es)
  = joined_with cs (filter p es).
Proof.
  induction es as [|e es IH]; simpl; trivial.
  rewrite filter_app, IH.
  assert (H : forall l : list category,
             filter (fun r => p (fst r)) (map (pair e) l)
             = if p e then map (pair e) l else []).
  { induction l as [|c l IHl]; simpl; [now destruct (p e)|].
    rewrite IHl. now destruct (p e). }
  rewrite H. now destruct (p e).
Qed.

Lemma NoDup_app_apart {A : Type} (l l' : list A) (a : A) :
  NoDup (l ++ l') -> In a l -> In a l' -> False.
Proof.
  intros Hnd Hl Hl'. destruct (in_split _ _ Hl') as [x1 [x2 ->]].
  rewrite app_assoc in Hnd.
  apply (NoDup_remove_2 _ _ _ Hnd). apply in_or_app. left.
  apply in_or_app. now left.
Qed.

(** New category rows do not change the join of entries whose category
    already exists. *)
Lemma joined_with_grow (cs extra : list category) (es : list time_entry) :
  NoDup (map cat_id (cs ++ extra)) ->
  (forall e, In e es ->
             exists c, In c cs /\ cat_id c = te_category_id e) ->
  joined_with (cs ++ extra) es = joined_with cs es.
Proof.
  intros Hnd H. induction es as [|e es IH]; simpl; trivial.
  rewrite IH by (intros; apply H; now right).
  f_equal. f_equal. rewrite filter_app.
  rewrite (filter_none _ extra); [apply app_nil_r|].
  intros c' Hc'. apply Z.eqb_neq. intros E.
  destruct (H e (or_introl eq_refl)) as [c [Hc Hid]].
  apply (NoDup_app_apart (map cat_id cs) (map cat_id extra) (cat_id c)).
  - now rewrite <- map_app.
  - now apply in_map.
  - replace (cat_id c) with (cat_id c') by congruence. now apply in_map.
Qed.

Lemma insert_or_ignore_all_grows (u : user_id) (names : list string)
  (d : db) :
  exists extra,
    categories (insert_or_ignore_all u names d) = categories d ++ extra
    /\ Forall (fun c => cat_user_id c = u) extra.
Proof.
  revert d. induction names as [|n l IH]; intros d; simpl.
  - exists []. split; [now rewrite app_nil_r|constructor].
  - destruct (IH (insert_or_ignore_category u n d)) as [extra [E Hall]].
    unfold insert_or_ignore_category in E.
    destruct (unique_conflict u n (categories d)) eqn:Ec.
    + exists extra. split; trivial.
      unfold insert_or_ignore_category. now rewrite Ec.
    + exists (mkCategory (categories_seq d + 1) u n :: extra). split.
      * unfold insert_or_ignore_category. rewrite Ec, E. simpl.
        now rewrite <- app_assoc.
      * now constructor.
Qed.

(** Every call keeps the category rows there are and adds rows of its own
    user only. *)
Lemma step_categories_grow (o : op) (d : db) :
  exists extra,
    categories (step o d) = categories d ++ extra
    /\ Forall (fun c => cat_user_id c = op_user o) extra.
Proof.
  destruct o as [u|u name|now u c t|now u]; simpl.
  - apply insert_or_ignore_all_grows.
  - unfold add_category, insert_category.
    destruct (unique_conflict u (lower name) (categories d)); simpl.
    + exists []. split; [now rewrite app_nil_r|constructor].
    + eexists. split; [reflexivity|]. now repeat constructor.
  - exists []. split; [now rewrite app_nil_r|constructor].
  - exists []. split; [|constructor]. rewrite app_nil_r.
    unfold stop_active_entry. now destruct (get_active_entry u d).
Qed.

(** A call on behalf of one user changes no row of another user, and so not
    the other user's list of categories. *)
Lemma other_user_rows_unchanged (o : op) (d : db) (b : user_id) :
  wf d -> op_user o <> b ->
  filter (fun e => te_user_id e =? b) (time_entries (step o d))
  = filter (fun e => te_user_id e =? b) (time_entries d)
  /\ filter (fun c => cat_user_id c =? b) (categories (step o d))
     = filter (fun c => cat_user_id c =? b) (categories d)
  /\ get_categories b (step o d) = get_categories b d.
Proof.
  intros Hwf Hb.
  assert (Hcat : filter (fun c => cat_user_id c =? b) (categories (step o d))
                 = filter (fun c => cat_user_id c =? b) (categories d)).
  { destruct (step_categories_grow o d) as [extra [E Hall]].
    rewrite E, filter_app, (filter_none _ extra); [apply app_nil_r|].
    rewrite Forall_forall in Hall. intros c Hc. apply Z.eqb_neq.
    rewrite (Hall c Hc). exact Hb. }
  split; [|split; [exact Hcat|unfold get_categories; now rewrite Hcat]].
  destruct o as [u|u name|now u c t|now u]; simpl in Hb |- *.
  - now rewrite ensure_default_categories_entries.
  - now rewrite add_category_entries.
  - rewrite filter_app. simpl. apply Z.eqb_neq in Hb. rewrite Hb.
    apply app_nil_r.
  - destruct (get_active_entry u d) as [a|] eqn:Ea.
    + destruct (stop_active_entry_rewrites now u d a Hwf Ea)
        as [l1 [e [l2 [E [_ [Hu [_ [_ [E' _]]]]]]]]].
      rewrite E', E, !filter_app. simpl. rewrite Hu.
      apply Z.eqb_neq in Hb. now rewrite Hb.
    + unfold stop_active_entry. now rewrite Ea.
Qed.

(** The three joining queries of a user read only that user's joined
    rows. *)
Lemma queries_read_own_rows (b : user_id) (d d' : db) :
  filter (fun r => te_user_id (fst r) =? b) (joined d')
  = filter (fun r => te_user_id (fst r) =? b) (joined d) ->
  get_active_entry b d' = get_active_entry b d
  /\ (forall now days, get_stats now b days d' = get_stats now b days d)
  /\ (forall limit, get_history b limit d' = get_history b limit d).
Proof.
  intros H. split; [|split].
  - unfold get_active_entry, is_active_for.
    now rewrite !(filter_andb (fun r => te_user_id (fst r) =? b)), H.
  - intros now days. unfold get_stats, stats_rows, stats_where.
    rewrite !(filter_andb
                (fun r => (te_user_id (fst r) =? b)
                          && negb (is_null (te_stopped_at (fst r))))).
    now rewrite !(filter_andb (fun r => te_user_id (fst r) =? b)), H.
  - intros limit. unfold get_history.
    now rewrite !(filter_andb (fun r => te_user_id (fst r) =? b)), H.
Qed.

(** A call on behalf of one user changes no answer to another user whose
    entries all refer to existing categories. *)
Lemma other_user_queries_unchanged (o : op) (d : db) (b : user_id) :
  wf d -> op_user o <> b ->
  (forall e, In e (time_entries d) -> te_user_id e = b ->
             exists c, In c (categories d) /\ cat_id c = te_category_id e) ->
  get_active_entry b (step o d) = get_active_entry b d
  /\ (forall now days,
        get_stats now b days (step o d) = get_stats now b days d)
  /\ (forall limit, get_history b limit (step o d) = get_history b limit d).
Proof.
  intros Hwf Hb Hrefs. apply queries_read_own_rows.
  unfold joined.
  rewrite !(joined_with_filter (fun e => te_user_id e =? b)).
  destruct (other_user_rows_unchanged o d b Hwf Hb) as [-> _].
  destruct (step_categories_grow o d) as [extra [E _]].
  pose proof (wf_cat_nodup _ (wf_step o d Hwf)) as Hnd.
  rewrite E in Hnd |- *. apply joined_with_grow; trivial.
  intros e He. apply filter_In in He as [He Hu].
  apply Z.eqb_eq in Hu. now apply Hrefs.
Qed.

(** C9 fails on the code.  User 2 starts an entry under category 1 while no
    such category exists: [start_entry] accepts the dangling reference.
    User 1 then asks for the default categories, and the first of them
    receives identifier 1.  No row of user 2 changed, yet
    [get_active_entry] for user 2 now returns the entry, under the name of
    user 1's category, and [stop_active_entry] for user 2 changes outcome
    with it. *)
Lemma other_user_changes_active_entry :
  let d := start_entry 0 2 1 "report" init_db in
  let d' := step (EnsureDefaultCategories 1) d in
  reachable d
  /\ filter (fun e => te_user_id e =? 2) (time_entries d')
     = filter (fun e => te_user_id e =? 2) (time_entries d)
  /\ filter (fun c => cat_user_id c =? 2) (categories d')
     = filter (fun c => cat_user_id c =? 2) (categories d)
  /\ get_active_entry 2 d = None
  /\ get_active_entry 2 d' = Some (mkActive 1 "report" 0 "work")
  /\ fst (stop_active_entry 9000000 2 d) = None
  /\ fst (stop_active_entry 9000000 2 d')
     = Some (mkStopped (mkActive 1 "report" 0 "work") 9).
Proof.
  intros d d'. split.
  - exists [StartEntry 0 2 1 "report"]. reflexivity.
  - repeat split.
Qed.

(** ** Statistics *)

(** Row by row, the join restricted to one name lists the entries that
    [entries_named] lists. *)
Lemma stats_rows_named (since : timestamp) (u : user_id) (n : string)
  (cs : list category) (es : list time_entry) :
  NoDup (map cat_id cs) ->
  map fst
      (filter (fun r => String.eqb (cat_name (snd r)) n)
         (filter (fun r => stats_where since u (fst r))
                 (joined_with cs es)))
  = filter (fun e => stats_where since u e && has_name cs n e) es.
Proof.
  intros Hnd. induction es as [|e es IH]; simpl; trivial.
  rewrite !filter_app, map_app, IH. f_equal.
  rewrite filter_unique_key by trivial.
  unfold has_name, category_of.
  destruct (find (fun c => te_category_id e =? cat_id c) cs) as [c|]; simpl.
  - destruct (stats_where since u e); simpl; trivial.
    now destruct (String.eqb (cat_name c) n).
  - now rewrite andb_false_r.
Qed.

Lemma sql_sum_total (es : list time_entry) :
  es <> [] ->
  (forall e, In e es -> te_duration_seconds e <> None) ->
  sql_sum (map te_duration_seconds es) = Some (total_seconds es).
Proof.
  induction es as [|e es IH]; [congruence|]. intros _ Hall. simpl.
  unfold duration_or_zero.
  destruct (te_duration_seconds e) as [x|] eqn:E.
  - destruct es as [|e' es]; [simpl; f_equal; lia|].
    rewrite IH; trivial; [discriminate|].
    intros e0 H0. apply Hall. now right.
  - exfalso. apply (Hall e); [now left|exact E].
Qed.

Lemma total_desc_total (a b : string * option Z) :
  total_desc a b = false -> total_desc b a = true.
Proof.
  unfold total_desc. destruct (snd a), (snd b); trivial; try discriminate.
  intros H. apply Z.leb_gt in H. apply Z.leb_le. lia.
Qed.

Lemma group_totals_In (rows : list (time_entry * category)) (n : string)
  (t : option Z) :
  In (n, t) (group_totals rows)
  <-> In n (map (fun r => cat_name (snd r)) rows)
      /\ t = sql_sum (map (fun r => te_duration_seconds (fst r))
                          (filter (fun r => String.eqb (cat_name (snd r)) n)
                                  rows)).
Proof.
  unfold group_totals. rewrite in_map_iff. split.
  - intros [m [E Hm]]. inversion E; subst. apply nodup_In in Hm. auto.
  - intros [Hn ->]. exists n. split; trivial. now apply nodup_In.
Qed.

Lemma group_totals_names (rows : list (time_entry * category)) :
  map fst (group_totals rows)
  = nodup string_dec (map (fun r => cat_name (snd r)) rows).
Proof.
  unfold group_totals. rewrite map_map. simpl. apply map_id.
Qed.

Lemma In_name_filter (rows : list (time_entry * category)) (n : string) :
  In n (map (fun r => cat_name (snd r)) rows)
  <-> filter (fun r => String.eqb (cat_name (snd r)) n) rows <> [].
Proof.
  split.
  - intros H E. apply in_map_iff in H as [r [Hn Hr]].
    assert (Hin : In r (filter (fun r => String.eqb (cat_name (snd r)) n)
                               rows)).
    { apply filter_In. split; trivial. now apply String.eqb_eq. }
    rewrite E in Hin. destruct Hin.
  - intros H.
    destruct (filter _ rows) as [|r l] eqn:E; [congruence|].
    assert (Hin : In r (filter (fun r => String.eqb (cat_name (snd r)) n)
                               rows))
      by (rewrite E; now left).
    apply filter_In in Hin as [Hr Hn]. apply String.eqb_eq in Hn.
    apply in_map_iff. eauto.
Qed.

Lemma StronglySorted_refine {A : Type} (R R' : A -> A -> Prop) (l : list A) :
  (forall a b, In a l -> In b l -> R a b -> R' a b) ->
  StronglySorted R l -> StronglySorted R' l.
Proof.
  intros H Hs. induction Hs as [|a l Hs IH Hall]; constructor.
  - apply IH. intros x y Hx Hy. apply H; now right.
  - rewrite Forall_forall in *. intros b Hb.
    apply H; [now left|now right|now apply Hall].
Qed.

Lemma total_desc_trans (a b c : string * option Z) :
  total_desc a b = true -> total_desc b c = true -> total_desc a c = true.
Proof.
  unfold total_desc.
  destruct (snd a), (snd b), (snd c); trivial; try discriminate.
  rewrite !Z.leb_le. lia.
Qed.

Lemma get_stats_sorted (now : timestamp) (u : user_id) (days : Z) (d : db) :
  StronglySorted (comes_before total_desc) (get_stats now u days d).
Proof.
  apply Sorted_StronglySorted.
  - intros a b c. apply total_desc_trans.
  - apply order_by_sorted. apply total_desc_total.
Qed.

Lemma entries_named_In (since : timestamp) (u : user_id) (n : string)
  (d : db) (e : time_entry) :
  wf d ->
  In e (entries_named since u n d)
  <-> In e (time_entries d) /\ te_user_id e = u /\ te_stopped_at e <> None
      /\ since <= te_started_at e
      /\ exists c, In c (categories d) /\ cat_id c = te_category_id e
                   /\ cat_name c = n.
Proof.
  intros Hwf. pose proof (wf_cat_nodup d Hwf) as Hnd.
  unfold entries_named, stats_where, has_name. rewrite filter_In.
  rewrite !andb_true_iff, Z.eqb_eq, Z.leb_le. split.
  - intros [He [[[Hu Hs] Hw] Hn]].
    destruct (category_of (categories d) e) as [c|] eqn:Ec; [|discriminate].
    apply String.eqb_eq in Hn.
    apply category_of_Some in Ec as [Hc Hid]; trivial.
    repeat split; trivial; [|eauto].
    now destruct (te_stopped_at e).
  - intros [He [Hu [Hs [Hw [c [Hc [Hid Hn]]]]]]].
    repeat split; trivial.
    + now destruct (te_stopped_at e).
    + rewrite (proj2 (category_of_Some (categories d) e c Hnd));
        [now apply String.eqb_eq|auto].
Qed.

Lemma entries_named_duration (since : timestamp) (u : user_id) (n : string)
  (d : db) (e : time_entry) :
  wf d -> In e (entries_named since u n d) -> te_duration_seconds e <> None.
Proof.
  intros Hwf He. apply entries_named_In in He as [He [_ [Hs _]]]; trivial.
  pose proof (wf_te_stop d Hwf) as H. rewrite Forall_forall in H.
  intros Hd. apply Hs. now apply (H e He).
Qed.

(** C8 (as amended).  On a reachable database [get_stats] returns one pair
    per category name, not per category row: the entries that count are the
    user's entries that have a stop timestamp and a start timestamp at or
    after now minus [days] days, each under the name of the category row its
    category_id refers to, whichever user owns that row.  A name appears,
    once, exactly when at least one such entry carries it, and its total is
    the sum of the durations of exactly those entries.  Entries without stop
    timestamp and entries started before the window add nothing, names
    without entry are left out, and totals descend along the result. *)
Theorem get_stats_totals_by_name (now : timestamp) (u : user_id) (days : Z)
  (d : db) :
  reachable d ->
  let since := now - days * 86400000000 in
  let result := get_stats now u days d in
  NoDup (map fst result)
  /\ (forall n t,
        In (n, t) result
        <-> entries_named since u n d <> []
            /\ t = Some (total_seconds (entries_named since u n d)))
  /\ (forall n e,
        In e (entries_named since u n d)
        <-> In e (time_entries d) /\ te_user_id e = u
            /\ te_stopped_at e <> None /\ since <= te_started_at e
            /\ exists c, In c (categories d)
                         /\ cat_id c = te_category_id e /\ cat_name c = n)
  /\ (forall n e, In e (entries_named since u n d) ->
                  exists x, te_duration_seconds e = Some x)
  /\ StronglySorted
       (fun a b => exists x y, snd a = Some x /\ snd b = Some y /\ y <= x)
       result.
Proof.
  intros Hr since result. pose proof (reachable_wf d Hr) as Hwf.
  pose proof (wf_cat_nodup d Hwf) as Hnd.
  set (rows := stats_rows since u d).
  assert (Hres : result = order_by total_desc (group_totals rows))
    by reflexivity.
  assert (Hnamed : forall n,
             map fst (filter (fun r => String.eqb (cat_name (snd r)) n) rows)
             = entries_named since u n d).
  { intros n. apply stats_rows_named, Hnd. }
  assert (Hin : forall n t,
             In (n, t) result
             <-> entries_named since u n d <> []
                 /\ t = Some (total_seconds (entries_named since u n d))).
  { intros n t. rewrite Hres, order_by_In, group_totals_In, In_name_filter.
    rewrite <- (map_map fst te_duration_seconds), Hnamed.
    assert (Hnil : filter (fun r => String.eqb (cat_name (snd r)) n) rows
                   <> [] <-> entries_named since u n d <> []).
    { rewrite <- Hnamed.
      destruct (filter _ rows); simpl; split; congruence. }
    rewrite Hnil. split; intros [Hne ->]; split; trivial.
    - apply sql_sum_total; trivial.
      intros e. now apply entries_named_duration.
    - symmetry. apply sql_sum_total; trivial.
      intros e. now apply entries_named_duration. }
  split; [|split; [exact Hin|split; [|split]]].
  - rewrite Hres.
    apply (Permutation_NoDup
             (l := map fst (group_totals rows))).
    + apply Permutation_map, order_by_perm.
    + rewrite group_totals_names. apply NoDup_nodup.
  - intros n e. now apply entries_named_In.
  - intros n e He.
    pose proof (entries_named_duration since u n d e Hwf He).
    destruct (te_duration_seconds e) as [x|]; [eauto|congruence].
  - apply (StronglySorted_refine (comes_before total_desc));
      [|apply get_stats_sorted].
    intros [n t] [n' t'] Ha Hb Hab.
    apply Hin in Ha as [_ ->]. apply Hin in Hb as [_ ->].
    unfold comes_before, total_desc in Hab. simpl in Hab.
    apply Z.leb_le in Hab. simpl. eauto.
Qed.

Lemma get_stats_totals_by_name_witness :
  let d := run [EnsureDefaultCategories 1;
                StartEntry 0 1 1 "report"; StopActiveEntry 10000000 1;
                StartEntry 20000000 1 2 "read"; StopActiveEntry 50000000 1;
                StartEntry 60000000 1 1 "mail"; StopActiveEntry 65000000 1;
                StartEntry 70000000 1 3 "run"] init_db in
  reachable d
  /\ get_stats 80000000 1 7 d = [("study", Some 30); ("work", Some 15)]
  /\ (In ("work", Some 15) (get_stats 80000000 1 7 d)
      <-> entries_named (80000000 - 7 * 86400000000) 1 "work" d <> []
          /\ Some 15
             = Some (total_seconds
                       (entries_named (80000000 - 7 * 86400000000) 1
                                      "work" d))).
Proof.
  intros d.
  assert (Hr : reachable d).
  { exists [EnsureDefaultCategories 1;
            StartEntry 0 1 1 "report"; StopActiveEntry 10000000 1;
            StartEntry 20000000 1 2 "read"; StopActiveEntry 50000000 1;
            StartEntry 60000000 1 1 "mail"; StopActiveEntry 65000000 1;
            StartEntry 70000000 1 3 "run"].
    reflexivity. }
  split; [exact Hr|]. split; [reflexivity|].
  destruct (get_stats_totals_by_name 80000000 1 7 d Hr) as [_ [H _]].
  apply H.
Defined.

(** C8 (as stated) fails: user 1 has one completed entry under their own
    category "work" (10 seconds) and one under user 2's category "work"
    (5 seconds).  Two categories have a completed entry in the window, yet
    [get_stats] returns a single pair, and its total, 15, is the sum of
    neither category's entries. *)
Lemma get_stats_merges_equal_names :
  let d := run [EnsureDefaultCategories 1; EnsureDefaultCategories 2;
                StartEntry 0 1 1 "report"; StopActiveEntry 10000000 1;
                StartEntry 20000000 1 5 "read"; StopActiveEntry 25000000 1]
               init_db in
  let since := 30000000 - 7 * 86400000000 in
  In (mkCategory 1 1 "work") (categories d)
  /\ In (mkCategory 5 2 "work") (categories d)
  /\ entries_of_category since 1 (mkCategory 1 1 "work") d
     = [mkEntry 1 1 1 "report" 0 (Some 10000000) (Some 10)]
  /\ entries_of_category since 1 (mkCategory 5 2 "work") d
     = [mkEntry 2 1 5 "read" 20000000 (Some 25000000) (Some 5)]
  /\ get_stats 30000000 1 7 d = [("work", Some 15)]
  /\ ~ In ("work", Some 10) (get_stats 30000000 1 7 d)
  /\ ~ In ("work", Some 5) (get_stats 30000000 1 7 d).
Proof.
  intros d since.
  split; [now left|]. split; [do 4 right; now left|].
  split; [reflexivity|]. split; [reflexivity|]. split; [reflexivity|].
  split; intros [H|[]]; discriminate.
Qed.

(** * Further properties of the engine *)

(** ** Creation order, unique names, completed entries and their category *)

Lemma StronglySorted_snoc {A : Type} (R : A -> A -> Prop) (l : list A)
  (x : A) :
  StronglySorted R l -> Forall (fun y => R y x) l ->
  StronglySorted R (l ++ [x]).
Proof.
  induction 1 as [|a l Hs IH Ha]; intros Hall; simpl.
  - repeat constructor.
  - inversion Hall as [|? ? Hax Hall']; subst. constructor; [now apply IH|].
    apply Forall_app. split; trivial. now repeat constructor.
Qed.

Lemma fresh_key_above {A : Type} (key : A -> Z) (l : list A) (s : Z) :
  Forall (fun x => key x <= s) l -> Forall (fun y => y < s + 1) (map key l).
Proof.
  intros H. rewrite Forall_map. eapply Forall_impl; [|exact H].
  simpl. intros; lia.
Qed.

Lemma ordered_init : ordered init_db.
Proof. split; simpl; constructor. Qed.

Lemma ordered_append_category (u : user_id) (n : string) (d : db) :
  wf d -> ordered d -> unique_conflict u n (categories d) = false ->
  ordered (append_category u n d).
Proof.
  intros Hwf [H1 H2 H3 H4] Hfree. split; simpl; trivial.
  - rewrite map_app. simpl. apply StronglySorted_snoc; trivial.
    apply fresh_key_above, (wf_cat_seq d Hwf).
  - rewrite map_app. simpl. apply NoDup_app; trivial.
    + repeat constructor. intros [].
    + intros a Ha [<-|[]]. apply in_map_iff in Ha as [c [E Hc]].
      inversion E.
      assert (unique_conflict u n (categories d) = true); [|congruence].
      apply unique_conflict_spec. eauto.
  - eapply Forall_impl; [|exact H4]. simpl.
    intros e He Hs. destruct (He Hs) as [c [Hc Hid]].
    exists c. split; trivial. apply in_or_app. now left.
Qed.

Lemma ordered_insert_or_ignore (u : user_id) (n : string) (d : db) :
  wf d -> ordered d -> ordered (insert_or_ignore_category u n d).
Proof.
  intros Hwf H. unfold insert_or_ignore_category.
  destruct (unique_conflict u n (categories d)) eqn:E.
  - destruct H as [H1 H2 H3 H4]. now split.
  - now apply ordered_append_category.
Qed.

Lemma ordered_insert_or_ignore_all (u : user_id) (names : list string)
  (d : db) :
  wf d -> ordered d -> ordered (insert_or_ignore_all u names d).
Proof.
  revert d. induction names as [|n l IH]; simpl; trivial.
  intros d Hwf H. apply IH.
  - now apply wf_insert_or_ignore.
  - now apply ordered_insert_or_ignore.
Qed.

Lemma ordered_start_entry (now : timestamp) (u c : Z) (t : string) (d : db) :
  wf d -> ordered d -> ordered (start_entry now u c t d).
Proof.
  intros Hwf [H1 H2 H3 H4]. split; simpl; trivial.
  - rewrite map_app. simpl. apply StronglySorted_snoc; trivial.
    apply fresh_key_above, (wf_te_seq d Hwf).
  - apply Forall_app. split; trivial.
    repeat constructor. simpl. congruence.
Qed.

Lemma ordered_stop_active_entry (now : timestamp) (u : user_id) (d : db) :
  wf d -> ordered d -> ordered (snd (stop_active_entry now u d)).
Proof.
  intros Hwf H.
  destruct (get_active_entry u d) as [a|] eqn:Ea.
  - destruct (stop_active_entry_rewrites now u d a Hwf Ea)
      as [l1 [e [l2 [E [Hid [Hu [Hs [Hst [E' Hc]]]]]]]]].
    destruct (get_active_entry_found u d a Ea)
      as [te [c [Hte [Hin [Hcat [_ [_ Hto]]]]]]].
    assert (te = e).
    { apply (nodup_key_inj te_id (time_entries d)); trivial.
      - apply (wf_te_nodup d Hwf).
      - rewrite E. apply in_elt.
      - rewrite Hid, Hto. reflexivity. }
    subst te. destruct H as [H1 H2 H3 H4].
    split; rewrite ?Hc, ?E'; trivial.
    + rewrite E in H3. rewrite map_app in *. exact H3.
    + rewrite E in H4. apply Forall_app in H4 as [Ha Hb].
      inversion Hb as [|? ? _ Hb']; subst.
      apply Forall_app. split; trivial. constructor; trivial.
      simpl. intros _. eauto.
  - unfold stop_active_entry. now rewrite Ea.
Qed.

Lemma ordered_step (o : op) (d : db) : wf d -> ordered d -> ordered (step o d).
Proof.
  intros Hwf H. destruct o as [u|u name|now u c t|now u]; simpl.
  - now apply ordered_insert_or_ignore_all.
  - unfold add_category, insert_category.
    destruct (unique_conflict u (lower name) (categories d)) eqn:E;
      simpl; trivial.
    now apply ordered_append_category.
  - now apply ordered_start_entry.
  - now apply ordered_stop_active_entry.
Qed.

Lemma reachable_ordered (d : db) : reachable d -> ordered d.
Proof.
  apply reachable_ind; [apply ordered_init|].
  intros o d' Hr. apply ordered_step. now apply reachable_wf.
Qed.

Lemma StronglySorted_map_iff {A B : Type} (R : B -> B -> Prop) (f : A -> B)
  (l : list A) :
  StronglySorted R (map f l) <-> StronglySorted (fun a b => R (f a) (f b)) l.
Proof.
  induction l as [|x l IH]; simpl; split; intros H; try constructor;
    inversion H as [|? ? Hs Hall]; subst.
  - now apply IH.
  - now rewrite Forall_map in Hall.
  - now apply IH.
  - now rewrite Forall_map.
Qed.

Lemma StronglySorted_filter {A : Type} (R : A -> A -> Prop) (p : A -> bool)
  (l : list A) :
  StronglySorted R l -> StronglySorted R (filter p l).
Proof.
  induction 1 as [|x l Hs IH Hall]; simpl; [constructor|].
  destruct (p x); trivial. constructor; trivial.
  rewrite Forall_forall in *. intros y Hy. apply Hall.
  now apply filter_In in Hy as [Hy _].
Qed.

(** On rows in creation order, [ORDER BY id] changes nothing. *)
Lemma get_categories_unsorted (u : user_id) (d : db) :
  ordered d ->
  get_categories u d
  = map (fun c => (cat_id c, cat_name c))
        (filter (fun c => cat_user_id c =? u) (categories d)).
Proof.
  intros H. unfold get_categories. rewrite order_by_sorted_id; trivial.
  apply StronglySorted_filter.
  apply (StronglySorted_refine (fun a b => cat_id a < cat_id b)).
  - intros a b _ _ Hab. apply Z.leb_le. lia.
  - apply StronglySorted_map_iff, (ord_cat_ids d H).
Qed.

Lemma user_names_nodup (u : user_id) (cs : list category) :
  NoDup (map (fun c => (cat_user_id c, cat_name c)) cs) ->
  NoDup (map cat_name (filter (fun c => cat_user_id c =? u) cs)).
Proof.
  induction cs as [|c cs IH]; simpl; [constructor|].
  intros Hnd. inversion Hnd as [|? ? Hnot Hnd']; subst.
  destruct (cat_user_id c =? u) eqn:E; [|now apply IH].
  simpl. constructor; [|now apply IH].
  intros Hin. apply Hnot. apply in_map_iff in Hin as [c' [En Hc']].
  apply filter_In in Hc' as [Hc' Eu]. apply in_map_iff. exists c'.
  split; trivial. apply Z.eqb_eq in E, Eu. congruence.
Qed.

(** X1.  On a reachable database [get_categories] lists the categories of
    the user, and only those, in the order in which they were created:
    their identifiers strictly increase along the list, and no name occurs
    twice (the UNIQUE(user_id, name) constraint held at every insert). *)
Theorem get_categories_creation_order (u : user_id) (d : db) :
  reachable d ->
  get_categories u d
  = map (fun c => (cat_id c, cat_name c))
        (filter (fun c => cat_user_id c =? u) (categories d))
  /\ StronglySorted Z.lt (map fst (get_categories u d))
  /\ NoDup (map snd (get_categories u d)).
Proof.
  intros Hr. pose proof (reachable_ordered d Hr) as Ho.
  rewrite (get_categories_unsorted u d Ho), !map_map. simpl.
  split; [reflexivity|]. split.
  - apply StronglySorted_map_iff, StronglySorted_filter.
    apply StronglySorted_map_iff, (ord_cat_ids d Ho).
  - apply user_names_nodup, (ord_cat_unique d Ho).
Qed.

Lemma get_categories_creation_order_witness :
  let d := run [EnsureDefaultCategories 1; EnsureDefaultCategories 2;
                AddCategory 1 "Music"; EnsureDefaultCategories 1;
                AddCategory 1 "chess"] init_db in
  reachable d
  /\ get_categories 1 d
     = [(1, "work"); (2, "study"); (3, "sport"); (4, "other");
        (9, "music"); (14, "chess")]
  /\ NoDup (map snd (get_categories 1 d)).
Proof.
  intros d.
  assert (Hr : reachable d).
  { exists [EnsureDefaultCategories 1; EnsureDefaultCategories 2;
            AddCategory 1 "Music"; EnsureDefaultCategories 1;
            AddCategory 1 "chess"].
    reflexivity. }
  destruct (get_categories_creation_order 1 d Hr) as [_ [_ H]].
  split; [exact Hr|]. split; [reflexivity|exact H].
Defined.

(** X2.  On a reachable database a successful [add_category] of an ASCII
    name shows in [get_categories] as one more pair at the end of the
    user's list, with the lowercased name and an identifier above all the
    user had; a refused one leaves the list as it was; other users' lists
    do not change. *)
Theorem add_category_then_get_categories (u : user_id) (name : string)
  (d : db) :
  reachable d -> is_ascii name = true ->
  let d' := snd (add_category u name d) in
  (fst (add_category u name d) = true ->
   get_categories u d'
   = get_categories u d ++ [(categories_seq d + 1, lower name)]
   /\ Forall (fun p => fst p < categories_seq d + 1) (get_categories u d))
  /\ (fst (add_category u name d) = false ->
      get_categories u d' = get_categories u d)
  /\ (forall v, v <> u -> get_categories v d' = get_categories v d).
Proof.
  intros Hr _ d'.
  assert (Hr' : reachable d')
    by apply (reachable_step (AddCategory u name) d Hr).
  pose proof (reachable_ordered d Hr) as Ho.
  pose proof (reachable_ordered d' Hr') as Ho'.
  pose proof (reachable_wf d Hr) as Hwf.
  unfold d' in *. unfold add_category, insert_category in *.
  destruct (unique_conflict u (lower name) (categories d)); simpl in *.
  - split; [discriminate|]. split; trivial.
  - split; [intros _|split; [discriminate|]].
    + rewrite (get_categories_unsorted u _ Ho').
      rewrite (get_categories_unsorted u d Ho).
      simpl. rewrite filter_app, map_app. simpl. rewrite Z.eqb_refl.
      split; [reflexivity|].
      rewrite Forall_map. apply Forall_forall. intros c Hc.
      apply filter_In in Hc as [Hc _]. simpl.
      pose proof (wf_cat_seq d Hwf) as Hs. rewrite Forall_forall in Hs.
      specialize (Hs c Hc). lia.
    + intros v Hv.
      rewrite (get_categories_unsorted v _ Ho').
      rewrite (get_categories_unsorted v d Ho).
      simpl. rewrite filter_app. simpl.
      apply Z.eqb_neq in Hv. rewrite Z.eqb_sym, Hv. now rewrite app_nil_r.
Qed.

Lemma add_category_then_get_categories_witness :
  let d := run [EnsureDefaultCategories 1; EnsureDefaultCategories 1]
               init_db in
  reachable d
  /\ is_ascii "Music" = true
  /\ get_categories 1 (snd (add_category 1 "Music" d))
     = get_categories 1 d ++ [(9, "music")].
Proof.
  intros d.
  assert (Hr : reachable d).
  { exists [EnsureDefaultCategories 1; EnsureDefaultCategories 1].
    reflexivity. }
  assert (Ha : is_ascii "Music" = true) by reflexivity.
  split; [exact Hr|]. split; [exact Ha|].
  destruct (add_category_then_get_categories 1 "Music" d Hr Ha) as [H _].
  apply H. reflexivity.
Defined.

(** ** What [ensure_default_categories] adds in general *)

Lemma insert_or_ignore_all_adds (u : user_id) (names : list string)
  (d : db) :
  exists extra,
    categories (insert_or_ignore_all u names d) = categories d ++ extra
    /\ Forall (fun c => cat_user_id c = u /\ In (cat_name c) names
                        /\ unique_conflict u (cat_name c) (categories d)
                           = false)
              extra.
Proof.
  revert d. induction names as [|n l IH]; intros d; simpl.
  - exists []. split; [now rewrite app_nil_r|constructor].
  - destruct (IH (insert_or_ignore_category u n d)) as [extra [E Hall]].
    unfold insert_or_ignore_category in E, Hall.
    destruct (unique_conflict u n (categories d)) eqn:Ec.
    + exists extra. split.
      * unfold insert_or_ignore_category. now rewrite Ec.
      * eapply Forall_impl; [|exact Hall]. simpl. intuition.
    + exists (mkCategory (categories_seq d + 1) u n :: extra). split.
      * unfold insert_or_ignore_category. rewrite Ec, E. simpl.
        now rewrite <- app_assoc.
      * constructor; [simpl; auto|].
        eapply Forall_impl; [|exact Hall]. simpl.
        intros c [Hu [Hn Hf]]. repeat split; auto.
        rewrite unique_conflict_app in Hf.
        now apply orb_false_iff in Hf as [Hf _].
Qed.

(** X3.  Whatever categories the user already has,
    [ensure_default_categories] keeps every category row that was there, in
    place; the rows it appends all belong to the user and carry default
    names the user lacked; afterwards the user has a category of each of
    the four default names; and no entry is touched. *)
Theorem ensure_default_categories_completes (u : user_id) (d : db) :
  let d' := ensure_default_categories u d in
  (exists extra,
      categories d' = categories d ++ extra
      /\ Forall (fun c => cat_user_id c = u
                          /\ In (cat_name c) DEFAULT_CATEGORIES
                          /\ ~ (exists c', In c' (categories d)
                                           /\ cat_user_id c' = u
                                           /\ cat_name c' = cat_name c))
                extra)
  /\ (forall n, In n DEFAULT_CATEGORIES ->
                exists c, In c (categories d')
                          /\ cat_user_id c = u /\ cat_name c = n)
  /\ time_entries d' = time_entries d.
Proof.
  intros d'. split; [|split].
  - destruct (insert_or_ignore_all_adds u DEFAULT_CATEGORIES d)
      as [extra [E Hall]].
    exists extra. split; [exact E|].
    eapply Forall_impl; [|exact Hall]. simpl.
    intros c [Hu [Hn Hf]]. repeat split; trivial.
    intros Hex. apply unique_conflict_spec in Hex. congruence.
  - intros n Hn. apply unique_conflict_spec.
    now apply ensure_all_present.
  - apply ensure_default_categories_entries.
Qed.

(** ** Nothing is ever deleted *)

Lemma step_keeps_entries (o : op) (d : db) (e : time_entry) :
  In e (time_entries d) ->
  exists e', In e' (time_entries (step o d)) /\ same_entry e e'.
Proof.
  intros He.
  assert (Hsame : same_entry e e) by (repeat split).
  destruct o as [u|u name|now u c t|now u]; simpl.
  - rewrite ensure_default_categories_entries. eauto.
  - rewrite add_category_entries. eauto.
  - exists e. split; trivial. apply in_or_app. now left.
  - unfold stop_active_entry.
    destruct (get_active_entry u d) as [a|]; simpl; [|eauto].
    exists (if te_id e =? ar_id a
            then set_stopped now (elapsed_seconds now (ar_started_at a)) e
            else e).
    split.
    + apply in_map_iff. exists e. split; trivial.
    + destruct (te_id e =? ar_id a); repeat split.
Qed.

(** X4.  No sequence of engine calls deletes, renames or reorders a
    category row: the categories table only grows at its end.  And no
    sequence deletes an entry or changes its identifier, owner, category,
    task name or start timestamp. *)
Theorem nothing_is_deleted (ops : list op) (d : db) :
  (exists extra, categories (run ops d) = categories d ++ extra)
  /\ (forall e, In e (time_entries d) ->
                exists e', In e' (time_entries (run ops d))
                           /\ same_entry e e').
Proof.
  revert d. induction ops as [|o ops IH]; intros d; simpl.
  - split; [exists []; now rewrite app_nil_r|].
    intros e He. exists e. split; trivial. repeat split.
  - destruct (IH (step o d)) as [[extra E] Hent]. split.
    + destruct (step_categories_grow o d) as [extra0 [E0 _]].
      exists (extra0 ++ extra). now rewrite E, E0, app_assoc.
    + intros e He.
      destruct (step_keeps_entries o d e He) as [e1 [H1 S1]].
      destruct (Hent e1 H1) as [e2 [H2 S2]].
      exists e2. split; trivial.
      unfold same_entry in *. intuition congruence.
Qed.

(** ** Which entry is the active one *)

Lemma id_desc_total (a b : time_entry * category) :
  id_desc a b = false -> id_desc b a = true.
Proof.
  unfold id_desc. intros H. apply Z.leb_gt in H. apply Z.leb_le. lia.
Qed.

Lemma id_desc_trans (a b c : time_entry * category) :
  id_desc a b = true -> id_desc b c = true -> id_desc a c = true.
Proof. unfold id_desc. rewrite !Z.leb_le. lia. Qed.

(** The first row of a sorted result comes before every row. *)
Lemma order_by_head {A : Type} (before : A -> A -> bool) (l rest : list A)
  (x y : A) :
  (forall a b, before a b = false -> before b a = true) ->
  (forall a b c, before a b = true -> before b c = true ->
                 before a c = true) ->
  order_by before l = x :: rest -> In y l -> before x y = true.
Proof.
  intros Htot Htrans E Hy.
  assert (Hs : StronglySorted (comes_before before) (x :: rest)).
  { rewrite <- E. apply Sorted_StronglySorted.
    - intros a b c. apply Htrans.
    - now apply order_by_sorted. }
  apply (order_by_In before) in Hy. rewrite E in Hy.
  inversion Hs as [|? ? _ Hall]; subst. destruct Hy as [<-|Hy].
  - destruct (before x x) eqn:Ex; trivial.
    pose proof (Htot x x Ex). congruence.
  - rewrite Forall_forall in Hall. now apply Hall.
Qed.

Lemma get_active_entry_max (u : user_id) (d : db) (a : active_row)
  (e : time_entry) (c : category) :
  get_active_entry u d = Some a ->
  In e (time_entries d) -> In c (categories d) ->
  te_category_id e = cat_id c -> te_user_id e = u ->
  te_stopped_at e = None ->
  te_id e <= ar_id a.
Proof.
  unfold get_active_entry. intros Ha He Hc Hid Hu Hs.
  destruct (order_by id_desc _) as [|r rest] eqn:E; [discriminate|].
  simpl in Ha. injection Ha as <-. simpl.
  assert (H : id_desc r (e, c) = true).
  { apply (order_by_head id_desc _ rest r (e, c)
             id_desc_total id_desc_trans E).
    apply filter_In. split.
    - apply joined_with_In. auto.
    - unfold is_active_for. simpl. rewrite Hs.
      apply Z.eqb_eq in Hu. now rewrite Hu. }
  unfold id_desc in H. simpl in H. now apply Z.leb_le.
Qed.

Lemma get_active_entry_None_iff (u : user_id) (d : db) :
  get_active_entry u d = None
  <-> forall e c, In e (time_entries d) -> In c (categories d) ->
                  te_category_id e = cat_id c -> te_user_id e = u ->
                  te_stopped_at e <> None.
Proof.
  split.
  - unfold get_active_entry. intros H e c He Hc Hid Hu Hs.
    destruct (hd_error _) eqn:Eh; [discriminate|].
    assert (Hin : In (e, c) (order_by id_desc
                               (filter (is_active_for u) (joined d)))).
    { apply order_by_In, filter_In. split.
      - apply joined_with_In. auto.
      - unfold is_active_for. simpl. rewrite Hs.
        apply Z.eqb_eq in Hu. now rewrite Hu. }
    destruct (order_by id_desc _); [destruct Hin|discriminate].
  - intros H. apply get_active_entry_none.
    intros [e c] Hin. apply joined_with_In in Hin as [He [Hc Hid]].
    unfold is_active_for. simpl.
    destruct (te_user_id e =? u) eqn:Eu; trivial. apply Z.eqb_eq in Eu.
    specialize (H e c He Hc Hid Eu). now destruct (te_stopped_at e).
Qed.

(** X5.  [get_active_entry] returns, of the user's entries that have no
    stop timestamp and whose category row exists, the one with the largest
    identifier (the most recently created), with the name of that category;
    it returns [None] exactly when the user has no such entry. *)
Theorem get_active_entry_most_recent (u : user_id) (d : db) :
  (forall a,
      get_active_entry u d = Some a ->
      (exists e c,
          In e (time_entries d) /\ In c (categories d)
          /\ te_category_id e = cat_id c /\ te_user_id e = u
          /\ te_stopped_at e = None
          /\ a = mkActive (te_id e) (te_task_name e) (te_started_at e)
                          (cat_name c))
      /\ (forall e c,
            In e (time_entries d) -> In c (categories d) ->
            te_category_id e = cat_id c -> te_user_id e = u ->
            te_stopped_at e = None -> te_id e <= ar_id a))
  /\ (get_active_entry u d = None
      <-> forall e c, In e (time_entries d) -> In c (categories d) ->
                      te_category_id e = cat_id c -> te_user_id e = u ->
                      te_stopped_at e <> None).
Proof.
  split; [|apply get_active_entry_None_iff].
  intros a Ha. split.
  - destruct (get_active_entry_found u d a Ha)
      as [e [c [H1 [H2 [H3 [H4 [H5 H6]]]]]]].
    exists e, c. auto 7.
  - intros e c. now apply get_active_entry_max.
Qed.

(** ** Stopping, then asking again *)

Lemma stop_active_entry_categories (now : timestamp) (u : user_id) (d : db) :
  categories (snd (stop_active_entry now u d)) = categories d.
Proof.
  unfold stop_active_entry. now destruct (get_active_entry u d).
Qed.

(** X6.  After [stop_active_entry] has stopped an entry on a reachable
    database, [get_active_entry] can only return an older entry (a smaller
    identifier); when the stopped entry was the user's only entry without
    stop timestamp, it returns [None] and a second [stop_active_entry]
    returns [None] and changes nothing.  The active entry of every other
    user is what it was. *)
Theorem stop_then_get_active_entry (now : timestamp) (u : user_id) (d : db)
  (a : active_row) :
  reachable d ->
  get_active_entry u d = Some a ->
  let d' := snd (stop_active_entry now u d) in
  (forall a', get_active_entry u d' = Some a' -> ar_id a' < ar_id a)
  /\ ((forall e, In e (time_entries d) -> te_user_id e = u ->
                 te_stopped_at e = None -> te_id e = ar_id a) ->
      get_active_entry u d' = None
      /\ forall now', stop_active_entry now' u d' = (None, d'))
  /\ (forall v, v <> u -> get_active_entry v d' = get_active_entry v d).
Proof.
  intros Hr Ha d'. pose proof (reachable_wf d Hr) as Hwf.
  destruct (stop_active_entry_rewrites now u d a Hwf Ha)
    as [l1 [e [l2 [E [Hid [Hu [Hs [Hst [E' Hc]]]]]]]]].
  fold d' in E', Hc.
  pose proof (wf_te_nodup d Hwf) as Hnd. rewrite E, map_app in Hnd.
  simpl in Hnd. apply NoDup_remove_2 in Hnd.
  assert (Hold : forall te, In te (time_entries d') ->
                            te_stopped_at te = None ->
                            In te (time_entries d) /\ te_id te <> ar_id a).
  { intros te Hte Hnull. rewrite E' in Hte.
    apply in_app_or in Hte as [Hte|[<-|Hte]]; [| discriminate |].
    - split; [rewrite E; apply in_or_app; now left|].
      intros Eid. apply Hnd. rewrite Hid, <- Eid.
      apply in_or_app. left. now apply in_map.
    - split; [rewrite E; apply in_or_app; right; now right|].
      intros Eid. apply Hnd. rewrite Hid, <- Eid.
      apply in_or_app. right. now apply in_map. }
  split; [|split].
  - intros a' Ha'.
    destruct (get_active_entry_found u d' a' Ha')
      as [te [c [Hte [Hin [Hcat [Hu' [Hnull ->]]]]]]].
    simpl. destruct (Hold te Hte Hnull) as [Hte' Hne].
    rewrite Hc in Hin.
    pose proof (get_active_entry_max u d a te c Ha Hte' Hin Hcat Hu' Hnull).
    lia.
  - intros Honly.
    assert (Hnone : get_active_entry u d' = None).
    { apply get_active_entry_None_iff. intros te c Hte _ _ Hu' Hnull.
      destruct (Hold te Hte Hnull) as [Hte' Hne].
      apply Hne. now apply Honly. }
    split; trivial. intros now'.
    unfold stop_active_entry. now rewrite Hnone.
  - intros v Hv.
    apply (queries_read_own_rows v d d'). unfold joined.
    rewrite !(joined_with_filter (fun x => te_user_id x =? v)), Hc.
    f_equal.
    destruct (other_user_rows_unchanged (StopActiveEntry now u) d v Hwf)
      as [Hrows _]; [simpl; congruence|exact Hrows].
Qed.

Lemma stop_then_get_active_entry_witness :
  let d := run [EnsureDefaultCategories 1; StartEntry 0 1 1 "report"]
               init_db in
  let a := mkActive 1 "report" 0 "work" in
  reachable d
  /\ get_active_entry 1 d = Some a
  /\ get_active_entry 1 (snd (stop_active_entry 7000000 1 d)) = None.
Proof.
  intros d a.
  assert (Hr : reachable d).
  { exists [EnsureDefaultCategories 1; StartEntry 0 1 1 "report"].
    reflexivity. }
  assert (Ha : get_active_entry 1 d = Some a) by reflexivity.
  split; [exact Hr|]. split; [exact Ha|].
  destruct (stop_then_get_active_entry 7000000 1 d a Hr Ha) as [_ [H _]].
  apply H. intros e He _ _. simpl in He. destruct He as [<-|[]].
  reflexivity.
Defined.

(** ** Starting twice *)

Lemma get_active_entry_after_start (now : timestamp) (u : user_id)
  (t : string) (d : db) (c : category) :
  wf d -> In c (categories d) ->
  get_active_entry u (start_entry now u (cat_id c) t d)
  = Some (mkActive (time_entries_seq d + 1) t now (cat_name c)).
Proof.
  intros Hwf Hc. unfold get_active_entry, joined. simpl.
  rewrite (joined_with_snoc _ _ _ c)
    by (trivial; apply (wf_cat_nodup d Hwf)).
  rewrite filter_app. simpl.
  unfold is_active_for at 2. simpl. rewrite Z.eqb_refl. simpl.
  destruct (order_by_last_first id_desc
              (filter (is_active_for u)
                      (joined_with (categories d) (time_entries d)))
              (mkEntry (time_entries_seq d + 1) u (cat_id c) t now
                       None None, c))
    as [rest ->]; [|reflexivity].
  intros [te c'] Hin. apply filter_In in Hin as [Hin _].
  apply joined_with_In in Hin as [Hte _].
  unfold id_desc. simpl. apply Z.leb_gt.
  pose proof (wf_te_seq d Hwf) as Hseq. rewrite Forall_forall in Hseq.
  specialize (Hseq te Hte). lia.
Qed.

(** A stopped row at the end of the table does not count. *)
Lemma get_active_entry_skip_stopped (u : user_id) (d : db)
  (es : list time_entry) (e : time_entry) :
  time_entries d = es ++ [e] -> te_stopped_at e <> None ->
  get_active_entry u d
  = get_active_entry u (mkDb (categories d) (categories_seq d) es
                             (time_entries_seq d)).
Proof.
  intros E Hs. unfold get_active_entry, joined, joined_with. simpl.
  rewrite E, flat_map_app, filter_app. simpl. rewrite app_nil_r.
  rewrite (filter_none (is_active_for u) (map (pair e) _));
    [now rewrite app_nil_r|].
  intros r Hr. apply in_map_iff in Hr as [c [<- _]].
  unfold is_active_for. simpl.
  destruct (te_stopped_at e); [apply andb_false_r|congruence].
Qed.

Lemma update_stopped_fresh (s : Z) (now : timestamp) (dur : Z)
  (l : list time_entry) :
  Forall (fun e => te_id e <= s) l ->
  map (fun te => if te_id te =? s + 1 then set_stopped now dur te else te) l
  = l.
Proof.
  intros H. rewrite <- (map_id l) at 2. apply map_ext_in.
  intros e He. rewrite Forall_forall in H. specialize (H e He).
  destruct (te_id e =? s + 1) eqn:E; trivial. apply Z.eqb_eq in E. lia.
Qed.

(** X7.  [start_entry] does not look for a running entry.  Called twice for
    one user on a reachable database (with categories that exist), it
    leaves two entries without stop timestamp; [get_active_entry] shows the
    second; and [stop_active_entry] stops the second only: afterwards the
    first is the active entry, still without stop timestamp. *)
Theorem start_entry_twice (now1 now2 now3 : timestamp) (u : user_id)
  (t1 t2 : string) (d : db) (c1 c2 : category) :
  reachable d -> In c1 (categories d) -> In c2 (categories d) ->
  let i := time_entries_seq d + 1 in
  let e1 := mkEntry i u (cat_id c1) t1 now1 None None in
  let e2 := mkEntry (i + 1) u (cat_id c2) t2 now2 None None in
  let d2 := start_entry now2 u (cat_id c2) t2
              (start_entry now1 u (cat_id c1) t1 d) in
  let d3 := snd (stop_active_entry now3 u d2) in
  time_entries d2 = time_entries d ++ [e1; e2]
  /\ get_active_entry u d2 = Some (mkActive (i + 1) t2 now2 (cat_name c2))
  /\ time_entries d3
     = time_entries d
       ++ [e1; mkEntry (i + 1) u (cat_id c2) t2 now2 (Some now3)
                       (Some (elapsed_seconds now3 now2))]
  /\ get_active_entry u d3 = Some (mkActive i t1 now1 (cat_name c1)).
Proof.
  intros Hr Hc1 Hc2 i e1 e2 d2 d3.
  pose proof (reachable_wf d Hr) as Hwf.
  set (d1 := start_entry now1 u (cat_id c1) t1 d).
  assert (Hwf1 : wf d1) by now apply wf_start_entry.
  assert (Ha2 : get_active_entry u d2
                = Some (mkActive (i + 1) t2 now2 (cat_name c2))).
  { apply (get_active_entry_after_start now2 u t2 d1 c2 Hwf1 Hc2). }
  assert (E3 : time_entries d3
               = time_entries d1
                 ++ [mkEntry (i + 1) u (cat_id c2) t2 now2 (Some now3)
                             (Some (elapsed_seconds now3 now2))]).
  { unfold d3, stop_active_entry. rewrite Ha2. simpl.
    rewrite map_app. simpl.
    rewrite (update_stopped_fresh (time_entries_seq d + 1)).
    - now rewrite Z.eqb_refl.
    - apply (wf_te_seq d1 Hwf1). }
  split; [|split; [exact Ha2|split]].
  - simpl. now rewrite <- app_assoc.
  - rewrite E3. simpl. now rewrite <- app_assoc.
  - rewrite (get_active_entry_skip_stopped u d3 _ _ E3) by discriminate.
    unfold d3. rewrite stop_active_entry_categories.
    apply (get_active_entry_after_start now1 u t1 d c1 Hwf Hc1).
Qed.

Lemma start_entry_twice_witness :
  let d := ensure_default_categories 1 init_db in
  let d2 := start_entry 5 1 2 "read" (start_entry 0 1 1 "report" d) in
  reachable d
  /\ In (mkCategory 1 1 "work") (categories d)
  /\ In (mkCategory 2 1 "study") (categories d)
  /\ get_active_entry 1 d2 = Some (mkActive 2 "read" 5 "study")
  /\ get_active_entry 1 (snd (stop_active_entry 9 1 d2))
     = Some (mkActive 1 "report" 0 "work").
Proof.
  intros d d2.
  assert (Hr : reachable d).
  { exists [EnsureDefaultCategories 1]. reflexivity. }
  assert (H1 : In (mkCategory 1 1 "work") (categories d)) by now left.
  assert (H2 : In (mkCategory 2 1 "study") (categories d))
    by (right; now left).
  destruct (start_entry_twice 0 5 9 1 "report" "read" d _ _ Hr H1 H2)
    as [_ [Ha [_ Hb]]].
  split; [exact Hr|]. split; [exact H1|]. split; [exact H2|].
  split; [exact Ha|exact Hb].
Defined.

(** ** The history *)

Lemma place_end {A : Type} (before : A -> A -> bool) (x : A) (l : list A) :
  (forall y, In y l -> before x y = false) -> place before x l = l ++ [x].
Proof.
  induction l as [|y l IH]; intros H; simpl; trivial.
  rewrite (H y) by now left. f_equal. apply IH. intros; apply H. now right.
Qed.

(** Rows in exactly the opposite order come out reversed. *)
Lemma order_by_rev {A : Type} (before : A -> A -> bool) (l : list A) :
  StronglySorted (fun a b => before a b = false) l ->
  order_by before l = rev l.
Proof.
  induction 1 as [|x l Hs IH Hall]; simpl; trivial.
  rewrite IH. apply place_end. intros y Hy.
  rewrite Forall_forall in Hall. apply Hall. now apply in_rev.
Qed.

Lemma StronglySorted_rev {A : Type} (R : A -> A -> Prop) (l : list A) :
  StronglySorted R l -> StronglySorted (fun a b => R b a) (rev l).
Proof.
  induction 1 as [|x l Hs IH Hall]; simpl; [constructor|].
  apply StronglySorted_snoc; trivial.
  rewrite Forall_forall in *. intros y Hy. apply Hall. now apply in_rev.
Qed.

(** When every entry has its category row, the join has one row per entry,
    in the order of the entries. *)
Lemma joined_with_total (cs : list category) (es : list time_entry) :
  NoDup (map cat_id cs) ->
  (forall e, In e es -> exists c, In c cs /\ cat_id c = te_category_id e) ->
  map fst (joined_with cs es) = es.
Proof.
  intros Hnd H. induction es as [|e es IH]; simpl; trivial.
  rewrite map_app, IH by (intros; apply H; now right).
  destruct (H e (or_introl eq_refl)) as [c [Hc Hid]].
  rewrite filter_unique_key by trivial. fold (category_of cs e).
  now rewrite (proj2 (category_of_Some cs e c Hnd) (conj Hc Hid)).
Qed.

(** The joined rows of the user's completed entries, newest first. *)
Lemma history_rows (u : user_id) (d : db) :
  wf d -> ordered d ->
  let rows :=
    order_by id_desc
      (filter (fun r => (te_user_id (fst r) =? u)
                        && negb (is_null (te_stopped_at (fst r))))
              (joined d)) in
  map fst rows = rev (filter (is_completed_for u) (time_entries d))
  /\ Forall (fun r => In (snd r) (categories d)
                      /\ cat_id (snd r) = te_category_id (fst r)) rows.
Proof.
  intros Hwf Ho rows.
  pose proof (wf_cat_nodup d Hwf) as Hnd.
  set (es := filter (is_completed_for u) (time_entries d)).
  assert (Hj : filter (fun r => (te_user_id (fst r) =? u)
                                && negb (is_null (te_stopped_at (fst r))))
                      (joined d)
               = joined_with (categories d) es).
  { apply (joined_with_filter (is_completed_for u)). }
  assert (Hfst : map fst (joined_with (categories d) es) = es).
  { apply joined_with_total; trivial. intros e He.
    apply filter_In in He as [He Hp].
    pose proof (ord_te_category d Ho) as Hcat.
    rewrite Forall_forall in Hcat. apply (Hcat e He).
    unfold is_completed_for in Hp. apply andb_true_iff in Hp as [_ Hp].
    now destruct (te_stopped_at e). }
  assert (Hasc : StronglySorted (fun a b => id_desc a b = false)
                                (joined_with (categories d) es)).
  { apply (StronglySorted_refine
             (fun a b => te_id (fst a) < te_id (fst b))).
    - intros a b _ _ Hab. unfold id_desc. apply Z.leb_gt. exact Hab.
    - apply (StronglySorted_map_iff (fun x y => te_id x < te_id y) fst).
      rewrite Hfst. apply StronglySorted_filter.
      apply StronglySorted_map_iff, (ord_te_ids d Ho). }
  unfold rows. rewrite Hj, (order_by_rev id_desc _ Hasc). split.
  - now rewrite map_rev, Hfst.
  - apply Forall_forall. intros [e c] Hin. apply in_rev in Hin.
    apply joined_with_In in Hin as [_ [Hc Hid]]. simpl. split; congruence.
Qed.

(** X8.  On a reachable database [get_history] lists the user's entries
    that have a stop timestamp, each exactly once and each with the name of
    its category row, in reverse creation order (strictly decreasing
    identifier), cut after the first [limit] rows; a negative [limit] cuts
    nothing.  Entries without stop timestamp never appear, and every row
    shown has a duration. *)
Theorem get_history_recent_first (u : user_id) (limit : Z) (d : db) :
  reachable d ->
  exists rows,
    map fst rows = rev (filter (is_completed_for u) (time_entries d))
    /\ StronglySorted (fun a b => te_id (fst b) < te_id (fst a)) rows
    /\ Forall (fun r => In (snd r) (categories d)
                        /\ cat_id (snd r) = te_category_id (fst r)
                        /\ te_duration_seconds (fst r) <> None) rows
    /\ get_history u limit d
       = (if limit <? 0 then map to_history rows
          else firstn (Z.to_nat limit) (map to_history rows))
    /\ (0 <= limit ->
        (List.length (get_history u limit d) <= Z.to_nat limit)%nat).
Proof.
  intros Hr. pose proof (reachable_wf d Hr) as Hwf.
  pose proof (reachable_ordered d Hr) as Ho.
  destruct (history_rows u d Hwf Ho) as [Hfst Hall].
  eexists. split; [exact Hfst|]. split; [|split; [|split]].
  - apply (StronglySorted_map_iff (fun x y => te_id y < te_id x) fst).
    rewrite Hfst.
    apply (StronglySorted_rev (fun x y => te_id x < te_id y)).
    apply StronglySorted_filter.
    apply StronglySorted_map_iff, (ord_te_ids d Ho).
  - rewrite Forall_forall in *. intros r Hin.
    destruct (Hall r Hin) as [Hc Hid]. repeat split; trivial.
    assert (He : In (fst r)
                    (rev (filter (is_completed_for u) (time_entries d))))
      by (rewrite <- Hfst; now apply in_map).
    apply in_rev, filter_In in He as [He Hp].
    unfold is_completed_for in Hp. apply andb_true_iff in Hp as [_ Hp].
    pose proof (wf_te_stop d Hwf) as Hstop.
    rewrite Forall_forall in Hstop. intros Hd.
    apply (Hstop _ He) in Hd. now rewrite Hd in Hp.
  - reflexivity.
  - intros Hl. unfold get_history, sql_limit.
    destruct (limit <? 0) eqn:E; [apply Z.ltb_lt in E; lia|].
    apply firstn_le_length.
Qed.

Lemma get_history_recent_first_witness :
  let d := run [EnsureDefaultCategories 1;
                StartEntry 0 1 1 "report"; StopActiveEntry 10000000 1;
                StartEntry 20000000 1 2 "read"; StopActiveEntry 50000000 1;
                StartEntry 60000000 1 1 "mail"] init_db in
  reachable d
  /\ get_history 1 10 d
     = [mkHistory "read" "study" 20000000 (Some 30);
        mkHistory "report" "work" 0 (Some 10)]
  /\ get_history 1 1 d = [mkHistory "read" "study" 20000000 (Some 30)]
  /\ Nat.le (List.length (get_history 1 1 d)) (Z.to_nat 1).
Proof.
  intros d.
  assert (Hr : reachable d).
  { exists [EnsureDefaultCategories 1;
            StartEntry 0 1 1 "report"; StopActiveEntry 10000000 1;
            StartEntry 20000000 1 2 "read"; StopActiveEntry 50000000 1;
            StartEntry 60000000 1 1 "mail"].
    reflexivity. }
  split; [exact Hr|]. split; [reflexivity|]. split; [reflexivity|].
  destruct (get_history_recent_first 1 1 d Hr) as [rows [_ [_ [_ [_ H]]]]].
  apply H. lia.
Defined.

(** ** What a call leaves to the other users, on reachable databases *)

(** X9.  On a reachable database a call made for one user changes no row of
    any other user, in either table, and so leaves every other user's
    [get_categories] as it was. *)
Theorem other_user_rows_kept (o : op) (d : db) (b : user_id) :
  reachable d -> op_user o <> b ->
  filter (fun e => te_user_id e =? b) (time_entries (step o d))
  = filter (fun e => te_user_id e =? b) (time_entries d)
  /\ filter (fun c => cat_user_id c =? b) (categories (step o d))
     = filter (fun c => cat_user_id c =? b) (categories d)
  /\ get_categories b (step o d) = get_categories b d.
Proof.
  intros Hr Hb. apply other_user_rows_unchanged; trivial.
  now apply reachable_wf.
Qed.

Lemma other_user_rows_kept_witness :
  let d := run [EnsureDefaultCategories 1; EnsureDefaultCategories 2;
                StartEntry 0 1 1 "report"; StartEntry 5 2 6 "read"]
               init_db in
  reachable d
  /\ op_user (StopActiveEntry 9000000 1) <> 2
  /\ filter (fun e => te_user_id e =? 2)
            (time_entries (step (StopActiveEntry 9000000 1) d))
     = [mkEntry 2 2 6 "read" 5 None None].
Proof.
  intros d.
  assert (Hr : reachable d).
  { exists [EnsureDefaultCategories 1; EnsureDefaultCategories 2;
            StartEntry 0 1 1 "report"; StartEntry 5 2 6 "read"].
    reflexivity. }
  assert (Hb : op_user (StopActiveEntry 9000000 1) <> 2)
    by (simpl; lia).
  split; [exact Hr|]. split; [exact Hb|].
  destruct (other_user_rows_kept _ d 2 Hr Hb) as [H _].
  rewrite H. reflexivity.
Defined.

Lemma completed_rows_kept (o : op) (d : db) (b : user_id) :
  wf d -> ordered d -> op_user o <> b ->
  filter (fun r => is_completed_for b (fst r)) (joined (step o d))
  = filter (fun r => is_completed_for b (fst r)) (joined d).
Proof.
  intros Hwf Ho Hb. unfold joined.
  rewrite !(joined_with_filter (is_completed_for b)).
  assert (Hrows : filter (is_completed_for b) (time_entries (step o d))
                  = filter (is_completed_for b) (time_entries d)).
  { unfold is_completed_for.
    rewrite !(filter_andb (fun e => te_user_id e =? b)).
    now destruct (other_user_rows_unchanged o d b Hwf Hb) as [-> _]. }
  rewrite Hrows.
  destruct (step_categories_grow o d) as [extra [E _]].
  pose proof (wf_cat_nodup _ (wf_step o d Hwf)) as Hnd.
  rewrite E in Hnd |- *. apply joined_with_grow; trivial.
  intros e He. apply filter_In in He as [He Hp].
  pose proof (ord_te_category d Ho) as Hcat.
  rewrite Forall_forall in Hcat. apply (Hcat e He).
  unfold is_completed_for in Hp. apply andb_true_iff in Hp as [_ Hp].
  now destruct (te_stopped_at e).
Qed.

(** X10.  On a reachable database a call made for one user changes neither
    the statistics nor the history of any other user, whatever the other
    user's entries refer to. *)
Theorem other_user_stats_history_kept (o : op) (d : db) (b : user_id) :
  reachable d -> op_user o <> b ->
  (forall now days,
      get_stats now b days (step o d) = get_stats now b days d)
  /\ (forall limit, get_history b limit (step o d) = get_history b limit d).
Proof.
  intros Hr Hb.
  pose proof (completed_rows_kept o d b (reachable_wf d Hr)
                (reachable_ordered d Hr) Hb) as H.
  split.
  - intros now days. unfold get_stats.
    assert (Hrows : forall d0 since,
               stats_rows since b d0
               = filter (fun r => since <=? te_started_at (fst r))
                   (filter (fun r => is_completed_for b (fst r))
                           (joined d0))).
    { intros d0 since.
      exact (filter_andb (fun r => is_completed_for b (fst r))
                         (fun r => since <=? te_started_at (fst r))
                         (joined d0)). }
    now rewrite !Hrows, H.
  - intros limit. unfold get_history.
    change (fun r : time_entry * category =>
              (te_user_id (fst r) =? b)
              && negb (is_null (te_stopped_at (fst r))))
      with (fun r : time_entry * category => is_completed_for b (fst r)).
    now rewrite H.
Qed.

Lemma other_user_stats_history_kept_witness :
  let d := run [StartEntry 0 2 1 "report"] init_db in
  reachable d
  /\ op_user (EnsureDefaultCategories 1) <> 2
  /\ get_history 2 10 (step (EnsureDefaultCategories 1) d) = [].
Proof.
  intros d.
  assert (Hr : reachable d).
  { exists [StartEntry 0 2 1 "report"]. reflexivity. }
  assert (Hb : op_user (EnsureDefaultCategories 1) <> 2) by (simpl; lia).
  split; [exact Hr|]. split; [exact Hb|].
  destruct (other_user_stats_history_kept _ d 2 Hr Hb) as [_ H].
  rewrite H. reflexivity.
Defined.

(** X11.  On a reachable database, when every entry of a user that lacks a
    stop timestamp refers to a category row that exists, a call made for
    any other user changes neither that user's [get_active_entry] nor what
    [stop_active_entry] would return to that user. *)
Theorem other_user_active_entry_kept (o : op) (d : db) (b : user_id) :
  reachable d -> op_user o <> b ->
  (forall e, In e (time_entries d) -> te_user_id e = b ->
             te_stopped_at e = None ->
             exists c, In c (categories d) /\ cat_id c = te_category_id e) ->
  get_active_entry b (step o d) = get_active_entry b d
  /\ forall now, fst (stop_active_entry now b (step o d))
                 = fst (stop_active_entry now b d).
Proof.
  intros Hr Hb Hrefs.
  pose proof (reachable_wf d Hr) as Hwf.
  pose proof (reachable_ordered d Hr) as Ho.
  assert (Ha : get_active_entry b (step o d) = get_active_entry b d).
  { apply other_user_queries_unchanged; trivial.
    intros e He Hu. destruct (te_stopped_at e) eqn:Es.
    - pose proof (ord_te_category d Ho) as Hcat.
      rewrite Forall_forall in Hcat. apply (Hcat e He). congruence.
    - now apply Hrefs. }
  split; trivial. intros now. unfold stop_active_entry. rewrite Ha.
  now destruct (get_active_entry b d).
Qed.

Lemma other_user_active_entry_kept_witness :
  let d := run [EnsureDefaultCategories 1; EnsureDefaultCategories 2;
                StartEntry 5 2 6 "read"] init_db in
  reachable d
  /\ op_user (AddCategory 1 "music") <> 2
  /\ get_active_entry 2 (step (AddCategory 1 "music") d)
     = Some (mkActive 1 "read" 5 "study").
Proof.
  intros d.
  assert (Hr : reachable d).
  { exists [EnsureDefaultCategories 1; EnsureDefaultCategories 2;
            StartEntry 5 2 6 "read"].
    reflexivity. }
  assert (Hb : op_user (AddCategory 1 "music") <> 2) by (simpl; lia).
  split; [exact Hr|]. split; [exact Hb|].
  destruct (other_user_active_entry_kept _ d 2 Hr Hb) as [H _].
  - intros e He _ _. simpl in He. destruct He as [<-|[]].
    exists (mkCategory 6 2 "study"). split; [|reflexivity].
    do 5 right. now left.
  - rewrite H. reflexivity.
Defined.

(** ** The totals of [get_stats] add up *)

Lemma zsum_perm (l l' : list Z) : Permutation l l' -> zsum l = zsum l'.
Proof.
  unfold zsum. induction 1; simpl; lia.
Qed.

Lemma zsum_map_add {A : Type} (g h : A -> Z) (l : list A) :
  zsum (map (fun x => g x + h x) l) = zsum (map g l) + zsum (map h l).
Proof. induction l as [|x l IH]; simpl; [reflexivity|]. rewrite IH. lia. Qed.

Lemma total_or_zero_sql_sum (l : list (option Z)) :
  total_or_zero (sql_sum l) = zsum (map total_or_zero l).
Proof.
  induction l as [|[x|] l IH]; simpl; trivial;
    rewrite <- IH; destruct (sql_sum l); simpl; lia.
Qed.

Lemma total_seconds_zsum (es : list time_entry) :
  total_seconds es = zsum (map duration_or_zero es).
Proof.
  induction es as [|e es IH]; simpl; [reflexivity|]. now rewrite <- IH.
Qed.

(** One name among distinct names: the indicator sums to the value. *)
Lemma zsum_indicator (m : string) (x : Z) (ns : list string) :
  NoDup ns ->
  zsum (map (fun n => if String.eqb m n then x else 0) ns)
  = if in_dec string_dec m ns then x else 0.
Proof.
  induction 1 as [|n ns Hnot Hnd IH]; simpl; trivial.
  rewrite IH. destruct (String.eqb_spec m n) as [->|Hne].
  - destruct (string_dec n n); [|congruence].
    destruct (in_dec string_dec n ns); [contradiction|lia].
  - destruct (string_dec n m); [congruence|].
    destruct (in_dec string_dec m ns); lia.
Qed.

(** Summing group by group is summing all rows. *)
Lemma zsum_by_group {A : Type} (f : A -> Z) (name : A -> string)
  (ns : list string) (rows : list A) :
  NoDup ns -> (forall r, In r rows -> In (name r) ns) ->
  zsum (map (fun n =>
               zsum (map f (filter (fun r => String.eqb (name r) n) rows)))
            ns)
  = zsum (map f rows).
Proof.
  intros Hnd. induction rows as [|r rows IH]; intros Hin; simpl.
  - induction ns as [|n ns IHn]; simpl; trivial.
    inversion Hnd; subst. now rewrite IHn.
  - rewrite <- IH by (intros; apply Hin; now right).
    rewrite (map_ext
               (fun n => zsum (map f (if String.eqb (name r) n
                                      then r :: filter
                                             (fun r0 => String.eqb (name r0) n)
                                             rows
                                      else filter
                                             (fun r0 => String.eqb (name r0) n)
                                             rows)))
               (fun n => (if String.eqb (name r) n then f r else 0)
                         + zsum (map f (filter
                                          (fun r0 => String.eqb (name r0) n)
                                          rows)))).
    + rewrite zsum_map_add, zsum_indicator by trivial.
      destruct (in_dec string_dec (name r) ns) as [_|Hno]; trivial.
      exfalso. apply Hno, Hin. now left.
    + intros n. now destruct (String.eqb (name r) n).
Qed.

(** X12.  On a reachable database the totals that [get_stats] returns add
    up to the summed durations of all the user's completed entries that
    started in the window: every such entry is counted in exactly one
    pair. *)
Theorem get_stats_totals_add_up (now : timestamp) (u : user_id) (days : Z)
  (d : db) :
  reachable d ->
  let since := now - days * 86400000000 in
  zsum (map (fun p => total_or_zero (snd p)) (get_stats now u days d))
  = total_seconds (filter (stats_where since u) (time_entries d)).
Proof.
  intros Hr since.
  pose proof (reachable_wf d Hr) as Hwf.
  pose proof (reachable_ordered d Hr) as Ho.
  set (rows := stats_rows since u d).
  assert (Hfst : map fst rows = filter (stats_where since u) (time_entries d)).
  { unfold rows, stats_rows, joined.
    rewrite (joined_with_filter (stats_where since u)).
    apply joined_with_total; [apply (wf_cat_nodup d Hwf)|].
    intros e He. apply filter_In in He as [He Hp].
    pose proof (ord_te_category d Ho) as Hcat.
    rewrite Forall_forall in Hcat. apply (Hcat e He).
    unfold stats_where in Hp. rewrite !andb_true_iff in Hp.
    destruct Hp as [[_ Hp] _]. now destruct (te_stopped_at e). }
  rewrite total_seconds_zsum, <- Hfst, map_map.
  rewrite <- (zsum_by_group (fun r => duration_or_zero (fst r))
                (fun r => cat_name (snd r))
                (nodup string_dec (map (fun r => cat_name (snd r)) rows))
                rows).
  - rewrite (zsum_perm _ (map (fun p => total_or_zero (snd p))
                              (group_totals rows))).
    + unfold group_totals. rewrite map_map. simpl. f_equal.
      apply map_ext. intros n.
      rewrite total_or_zero_sql_sum, map_map. reflexivity.
    + apply Permutation_map, Permutation_sym, order_by_perm.
  - apply NoDup_nodup.
  - intros r Hin. apply nodup_In.
    now apply (in_map (fun r => cat_name (snd r))).
Qed.

Lemma get_stats_totals_add_up_witness :
  let d := run [EnsureDefaultCategories 1;
                StartEntry 0 1 1 "report"; StopActiveEntry 10000000 1;
                StartEntry 20000000 1 2 "read"; StopActiveEntry 50000000 1;
                StartEntry 60000000 1 1 "mail"; StopActiveEntry 65000000 1]
               init_db in
  reachable d
  /\ get_stats 80000000 1 7 d = [("study", Some 30); ("work", Some 15)]
  /\ total_seconds
       (filter (stats_where (80000000 - 7 * 86400000000) 1)
               (time_entries d)) = 45.
Proof.
  intros d.
  assert (Hr : reachable d).
  { exists [EnsureDefaultCategories 1;
            StartEntry 0 1 1 "report"; StopActiveEntry 10000000 1;
            StartEntry 20000000 1 2 "read"; StopActiveEntry 50000000 1;
            StartEntry 60000000 1 1 "mail"; StopActiveEntry 65000000 1].
    reflexivity. }
  split; [exact Hr|]. split; [reflexivity|].
  rewrite <- (get_stats_totals_add_up 80000000 1 7 d Hr). reflexivity.
Defined.

(** * Properties of the front-end *)

(** ** [format_duration] *)

(** X13.  [format_duration] splits any number of seconds, negative ones
    too, into the one triple of hours, minutes below 60 and seconds below
    60 that adds up to it, and prints the parts of that triple (hours and
    minutes only when they are not zero).  A negative number of seconds is
    shown with negative hours and minutes and seconds that count upwards:
    -5 is shown as -1h 59m 55s. *)
Theorem format_duration_decomposes (seconds : Z) :
  exists h m s,
    seconds = 3600 * h + 60 * m + s
    /\ 0 <= m < 60 /\ 0 <= s < 60
    /\ (seconds < 0 <-> h < 0)
    /\ format_duration seconds = String.concat " " (duration_parts h m s)
    /\ (forall h' m' s',
          seconds = 3600 * h' + 60 * m' + s' ->
          0 <= m' < 60 -> 0 <= s' < 60 ->
          h' = h /\ m' = m /\ s' = s)
    /\ format_duration (-5) = "-1h 59m 55s".
Proof.
  exists (seconds / 3600), ((seconds mod 3600) / 60),
         ((seconds mod 3600) mod 60).
  pose proof (Z.div_mod seconds 3600 ltac:(lia)) as H1.
  pose proof (Z.mod_pos_bound seconds 3600 ltac:(lia)) as B1.
  pose proof (Z.div_mod (seconds mod 3600) 60 ltac:(lia)) as H2.
  pose proof (Z.mod_pos_bound (seconds mod 3600) 60 ltac:(lia)) as B2.
  assert (Hm : 0 <= (seconds mod 3600) / 60 < 60).
  { split; [apply Z.div_pos; lia|apply Z.div_lt_upper_bound; lia]. }
  split; [lia|]. split; [exact Hm|]. split; [exact B2|].
  split; [lia|]. split; [reflexivity|]. split; [|reflexivity].
  intros h' m' s' E Bm Bs. lia.
Qed.

(** ** [cmd_addcat] *)

Lemma is_space_lower (c : ascii) : is_space (lower_ascii c) = is_space c.
Proof. destruct c as [[] [] [] [] [] [] [] []]; reflexivity. Qed.

Lemma no_space_lower (s : string) : no_space (lower s) = no_space s.
Proof.
  induction s as [|c s IH]; simpl; trivial.
  now rewrite is_space_lower, IH.
Qed.

Lemma no_space_snoc (cur : string) (c : ascii) :
  no_space (String.append cur (String c EmptyString))
  = no_space cur && negb (is_space c).
Proof.
  induction cur as [|a cur IH]; simpl.
  - apply andb_true_r.
  - rewrite IH. apply andb_assoc.
Qed.

Lemma snoc_not_empty (cur : string) (c : ascii) :
  String.append cur (String c EmptyString) <> EmptyString.
Proof. destruct cur; discriminate. Qed.

(** The words [split] returns are not empty and hold no whitespace. *)
Lemma words_from_clean (cur s : string) :
  no_space cur = true ->
  Forall (fun w => w <> EmptyString /\ no_space w = true) (words_from cur s).
Proof.
  revert cur. induction s as [|c s IH]; intros cur Hcur; simpl.
  - destruct cur; [constructor|]. repeat constructor; [discriminate|trivial].
  - destruct (is_space c) eqn:Ec.
    + destruct cur.
      * now apply IH.
      * constructor; [split; [discriminate|trivial]|now apply IH].
    + apply IH. rewrite no_space_snoc, Hcur, Ec. reflexivity.
Qed.

(** *** The first word of a text *)

Lemma all_space_app (s t : string) :
  all_space (s ++ t)%string = all_space s && all_space t.
Proof.
  induction s as [|c s IH]; simpl; trivial.
  now rewrite IH, andb_assoc.
Qed.

Lemma append_empty_r (s : string) : (s ++ "")%string = s.
Proof. induction s as [|c s IH]; simpl; [trivial|now rewrite IH]. Qed.

Lemma append_assoc (s t r : string) :
  ((s ++ t) ++ r)%string = (s ++ t ++ r)%string.
Proof. induction s as [|c s IH]; simpl; [trivial|now rewrite IH]. Qed.

(** [lstrip] removes a prefix of whitespace, [rstrip] a suffix. *)
Lemma lstrip_prefix (s : string) :
  exists pre, s = (pre ++ lstrip s)%string /\ all_space pre = true.
Proof.
  induction s as [|c s [pre [E Hp]]]; simpl.
  - now exists EmptyString.
  - destruct (is_space c) eqn:Ec.
    + exists (String c pre). simpl. rewrite Ec, Hp. now rewrite <- E.
    + now exists EmptyString.
Qed.

Lemma rstrip_suffix (s : string) :
  exists suf, s = (rstrip s ++ suf)%string /\ all_space suf = true.
Proof.
  induction s as [|c s [suf [E Hs]]]; simpl.
  - now exists EmptyString.
  - destruct (rstrip s) as [|c' r] eqn:Er.
    + simpl in E. subst suf. destruct (is_space c) eqn:Ec.
      * exists (String c s). simpl. now rewrite Ec, Hs.
      * now exists s.
    + exists suf. simpl. split; [|trivial]. now rewrite E at 1.
Qed.

Lemma strip_middle (s : string) :
  exists pre suf,
    s = (pre ++ strip s ++ suf)%string
    /\ all_space pre = true /\ all_space suf = true.
Proof.
  destruct (lstrip_prefix s) as [pre [E Hp]].
  destruct (rstrip_suffix (lstrip s)) as [suf [E' Hs]].
  exists pre, suf. unfold strip. now rewrite <- E', <- E.
Qed.

Lemma all_space_lstrip (s : string) :
  all_space s = true -> lstrip s = EmptyString.
Proof.
  induction s as [|c s IH]; simpl; trivial.
  destruct (is_space c); [exact IH|discriminate].
Qed.

Lemma all_space_strip (s : string) :
  all_space s = true -> strip s = EmptyString.
Proof. intros H. unfold strip. now rewrite (all_space_lstrip s H). Qed.

Lemma all_space_word_end (s : string) : all_space s = true -> word_end s.
Proof.
  destruct s as [|c r]; [now left|]. simpl. intros H.
  apply andb_true_iff in H as [Hc _]. right. now exists c, r.
Qed.

Lemma word_end_app (s t : string) :
  word_end s -> all_space t = true -> word_end (s ++ t)%string.
Proof.
  intros [->|[c [r [-> Hc]]]] Ht.
  - now apply all_space_word_end.
  - right. now exists c, (r ++ t)%string.
Qed.

(** The word [split] is reading ends where the text ends or whitespace
    begins. *)
Lemma words_from_cur (s cur w : string) (ws : list string) :
  cur <> EmptyString -> words_from cur s = w :: ws ->
  exists mid post,
    s = (mid ++ post)%string /\ no_space mid = true
    /\ w = (cur ++ mid)%string /\ word_end post.
Proof.
  revert cur. induction s as [|c s IH]; intros cur Hc; simpl.
  - destruct cur; [congruence|]. intros E. injection E as <- _.
    exists EmptyString, EmptyString.
    repeat split; [now rewrite append_empty_r|now left].
  - destruct (is_space c) eqn:Ec.
    + destruct cur; [congruence|]. intros E. injection E as <- _.
      exists EmptyString, (String c s).
      repeat split; [now rewrite append_empty_r|].
      right. now exists c, s.
    + intros E.
      destruct (IH _ (snoc_not_empty cur c) E)
        as [mid [post [-> [Hm [-> He]]]]].
      exists (String c mid), post. simpl. rewrite Ec, Hm.
      repeat split; trivial. now rewrite append_assoc.
Qed.

(** The first word [split] returns is the first maximal run of characters
    that are not whitespace. *)
Lemma words_from_first (s w : string) (ws : list string) :
  words_from EmptyString s = w :: ws ->
  exists pre post,
    s = (pre ++ w ++ post)%string /\ all_space pre = true
    /\ w <> EmptyString /\ no_space w = true /\ word_end post.
Proof.
  induction s as [|c s IH]; simpl; [discriminate|].
  destruct (is_space c) eqn:Ec.
  - intros E. destruct (IH E) as [pre [post [-> [Hp H]]]].
    exists (String c pre), post. simpl. now rewrite Ec, Hp.
  - intros E.
    destruct (words_from_cur s (String c EmptyString) w ws) as
      [mid [post [-> [Hm [-> He]]]]]; [discriminate|exact E|].
    exists EmptyString, post. simpl. rewrite Ec, Hm.
    repeat split; trivial. discriminate.
Qed.

Lemma words_from_nil (s cur : string) :
  words_from cur s = [] -> cur = EmptyString /\ all_space s = true.
Proof.
  revert cur. induction s as [|c s IH]; intros cur; simpl.
  - destruct cur; [auto|discriminate].
  - destruct (is_space c) eqn:Ec.
    + destruct cur; [|discriminate]. intros E.
      split; [trivial|]. now destruct (IH _ E).
    + intros E. destruct (IH _ E) as [E' _].
      now destruct (snoc_not_empty cur c).
Qed.

(** What [cmd_addcat] computes from a text that is not whitespace only. *)
Lemma split_strip_first (a : string) :
  all_space a = false ->
  exists pre w post ws,
    split (strip a) = w :: ws
    /\ a = (pre ++ w ++ post)%string /\ all_space pre = true
    /\ w <> EmptyString /\ no_space w = true /\ word_end post.
Proof.
  intros Ha.
  destruct (strip_middle a) as [pre [suf [E [Hp Hs]]]].
  unfold split. destruct (words_from EmptyString (strip a)) as [|w ws] eqn:Ew.
  - destruct (words_from_nil _ _ Ew) as [_ Hm].
    rewrite E, !all_space_app, Hp, Hm, Hs in Ha. discriminate.
  - destruct (words_from_first _ _ _ Ew)
      as [pre' [post [E' [Hp' [Hw [Hn He]]]]]].
    exists (pre ++ pre')%string, w, (post ++ suf)%string, ws.
    split; [trivial|]. split.
    + rewrite E at 1. rewrite E'. now rewrite !append_assoc.
    + rewrite all_space_app, Hp, Hp'. repeat split; trivial.
      now apply word_end_app.
Qed.

(** A text has one first word. *)
Lemma word_unique (w w' post post' : string) :
  (w ++ post)%string = (w' ++ post')%string ->
  no_space w = true -> no_space w' = true ->
  word_end post -> word_end post' -> w = w'.
Proof.
  revert w'. induction w as [|c w IH]; intros [|c' w'] E Hw Hw' He He';
    simpl in *; trivial.
  - apply andb_true_iff in Hw' as [Hc _].
    destruct He as [->|[x [r [-> Hx]]]]; [discriminate|].
    injection E as -> _. now rewrite Hx in Hc.
  - apply andb_true_iff in Hw as [Hc _].
    destruct He' as [->|[x [r [-> Hx]]]]; [discriminate|].
    injection E as -> _. now rewrite Hx in Hc.
  - injection E as -> E.
    apply andb_true_iff in Hw as [_ Hw].
    apply andb_true_iff in Hw' as [_ Hw'].
    f_equal. now apply IH.
Qed.

Lemma first_word_unique (pre w post pre' w' post' : string) :
  (pre ++ w ++ post)%string = (pre' ++ w' ++ post')%string ->
  all_space pre = true -> all_space pre' = true ->
  w <> EmptyString -> w' <> EmptyString ->
  no_space w = true -> no_space w' = true ->
  word_end post -> word_end post' -> w = w'.
Proof.
  revert pre'.
  induction pre as [|c pre IH]; intros [|c' pre'] E Hp Hp' Hn Hn' Hw Hw';
    simpl in *.
  - now apply word_unique.
  - destruct w as [|x w]; [congruence|]. simpl in *. injection E as -> _.
    apply andb_true_iff in Hp' as [Hc _].
    apply andb_true_iff in Hw as [Hx _]. now rewrite Hc in Hx.
  - destruct w' as [|x w']; [congruence|]. simpl in *. injection E as -> _.
    apply andb_true_iff in Hp as [Hc _].
    apply andb_true_iff in Hw' as [Hx _]. now rewrite Hc in Hx.
  - injection E as -> E.
    apply andb_true_iff in Hp as [_ Hp].
    apply andb_true_iff in Hp' as [_ Hp'].
    now apply (IH pre').
Qed.

(** X14.  [cmd_addcat] answers with the usage line and leaves the database
    alone when it gets no argument.  When the argument is whitespace only,
    indexing the empty word list raises IndexError before the engine is
    called.  Otherwise, for an argument in ASCII text, the argument is some
    whitespace, then a word (not empty, without whitespace, followed by
    whitespace or by the end of the text), then the rest; the name is that
    first word, lowercased: it is not empty and contains no whitespace and
    no uppercase letter.  When the user has a category of that name the
    answer says so and the database stays as it is; otherwise the answer
    says the category was added, and one row with the next identifier, the
    user and that name is appended. *)
Theorem cmd_addcat_clean_names (u : user_id) (args : option string)
  (d : db) :
  (args = None \/ args = Some EmptyString ->
   cmd_addcat u args d = (Done (say "Usage: /addcat <name>"), d))
  /\ (forall a, args = Some a -> a <> EmptyString ->
                all_space a = true ->
                cmd_addcat u args d = (Raised IndexError, d))
  /\ (forall a, args = Some a -> is_ascii a = true ->
                all_space a = false ->
      exists pre w post,
        a = (pre ++ w ++ post)%string
        /\ all_space pre = true
        /\ w <> EmptyString /\ no_space w = true /\ word_end post
        /\ lower w <> EmptyString /\ no_space (lower w) = true
        /\ lower (lower w) = lower w
        /\ cmd_addcat u args d
           = (if unique_conflict u (lower w) (categories d)
              then (Done (say (fstring ["Category '"; lower w;
                                        "' already exists."])), d)
              else (Done (say (fstring ["Category '"; lower w;
                                        "' added."])),
                    mkDb (categories d
                          ++ [mkCategory (categories_seq d + 1) u
                                         (lower w)])
                         (categories_seq d + 1) (time_entries d)
                         (time_entries_seq d)))).
Proof.
  split; [|split].
  - intros [->| ->]; reflexivity.
  - intros a -> Ha Hs. destruct a; [congruence|].
    unfold cmd_addcat. now rewrite (all_space_strip _ Hs).
  - intros a -> _ Ha.
    destruct (split_strip_first a Ha)
      as [pre [w [post [ws [Es [E [Hp [Hn [Hw He]]]]]]]]].
    exists pre, w, post. repeat split; trivial.
    + now rewrite lower_empty.
    + now rewrite no_space_lower.
    + apply lower_idem.
    + destruct a as [|c a]; [discriminate|].
      unfold cmd_addcat. rewrite Es, add_category_unfold, lower_idem.
      now destruct (unique_conflict u (lower w) (categories d)).
Qed.

Lemma cmd_addcat_clean_names_witness :
  is_ascii "  My Music " = true
  /\ all_space "  My Music " = false
  /\ cmd_addcat 7 (Some "  My Music ") init_db
     = (Done (say "Category 'my' added."),
        mkDb [mkCategory 1 7 "my"] 1 [] 0).
Proof.
  assert (Ha : is_ascii "  My Music " = true) by reflexivity.
  assert (Hs : all_space "  My Music " = false) by reflexivity.
  split; [exact Ha|]. split; [exact Hs|].
  destruct (cmd_addcat_clean_names 7 (Some "  My Music ") init_db)
    as [_ [_ H]].
  destruct (H "  My Music " eq_refl Ha Hs)
    as [pre [w [post [E [Hp [Hn [Hw [He [_ [_ [_ Hc]]]]]]]]]]].
  assert (Ew : w = "My").
  { apply (first_word_unique pre w post "  " "My" " Music "); trivial.
    - now rewrite <- E.
    - discriminate.
    - right. now exists " "%char, "Music ". }
  subst w. rewrite Hc. reflexivity.
Defined.

(** ** Identifiers through the inline keyboard *)

Lemma digits_from_digit (acc k : Z) (b : bool) (c : ascii) (s : string) :
  digit_of c = Some k ->
  digits_from acc b (String c s) = digits_from (10 * acc + k) true s.
Proof. intros H. simpl. now rewrite H. Qed.

Ltac read_digit :=
  cbn [DecimalString.NilEmpty.string_of_uint Pos.of_uint_acc Pos.of_uint];
  erewrite digits_from_digit by (vm_compute; reflexivity).

Lemma digits_from_acc (d : Decimal.uint) (p : positive) :
  digits_from (Z.pos p) true (DecimalString.NilEmpty.string_of_uint d)
  = Some (Z.pos (Pos.of_uint_acc d p)).
Proof.
  revert p.
  induction d as [|d IH|d IH|d IH|d IH|d IH|d IH|d IH|d IH|d IH|d IH];
    intros p; [reflexivity|..]; read_digit;
    match goal with
    | |- digits_from ?z true _ = Some (Z.pos (Pos.of_uint_acc _ ?q)) =>
        replace z with (Z.pos q) by lia; apply IH
    end.
Qed.

Lemma digits_from_zero (d : Decimal.uint) :
  digits_from 0 true (DecimalString.NilEmpty.string_of_uint d)
  = Some (Z.of_N (Pos.of_uint d)).
Proof.
  induction d as [|d IH|d IH|d IH|d IH|d IH|d IH|d IH|d IH|d IH|d IH];
    [reflexivity|..]; read_digit; [exact IH|apply digits_from_acc..].
Qed.

Lemma digits_from_numeral (d : Decimal.uint) :
  d <> Decimal.Nil ->
  digits_from 0 false (DecimalString.NilEmpty.string_of_uint d)
  = Some (Z.of_uint d).
Proof.
  intros Hd. unfold Z.of_uint. rewrite <- (digits_from_zero d).
  destruct d; [congruence|..];
    cbn [DecimalString.NilEmpty.string_of_uint];
    do 2 (erewrite digits_from_digit by (vm_compute; reflexivity));
    reflexivity.
Qed.

Lemma rstrip_c_cons (c : ascii) (s : string) :
  is_c_space c = false -> rstrip_c s = s ->
  rstrip_c (String c s) = String c s.
Proof. intros Hc Hs. simpl. rewrite Hs, Hc. now destruct s. Qed.

Lemma rstrip_c_numeral (d : Decimal.uint) :
  rstrip_c (DecimalString.NilEmpty.string_of_uint d)
  = DecimalString.NilEmpty.string_of_uint d.
Proof.
  induction d; [reflexivity|..];
    (apply rstrip_c_cons; [reflexivity|assumption]).
Qed.

Lemma to_uint_not_nil (p : positive) : Pos.to_uint p <> Decimal.Nil.
Proof.
  intros E. pose proof (DecimalPos.Unsigned.of_to p) as H.
  rewrite E in H. discriminate.
Qed.

Lemma int_numeral (d : Decimal.uint) :
  d <> Decimal.Nil ->
  int (DecimalString.NilEmpty.string_of_uint d) = Some (Z.of_uint d)
  /\ int (String "-" (DecimalString.NilEmpty.string_of_uint d))
     = Some (- Z.of_uint d).
Proof.
  intros Hd. pose proof (digits_from_numeral d Hd) as Hn.
  pose proof (rstrip_c_numeral d) as Hr. unfold int. split.
  - replace (lstrip_c (DecimalString.NilEmpty.string_of_uint d))
      with (DecimalString.NilEmpty.string_of_uint d)
      by (destruct d; reflexivity).
    rewrite Hr. rewrite <- Hn. destruct d; [congruence|reflexivity..].
  - change (lstrip_c (String "-" (DecimalString.NilEmpty.string_of_uint d)))
      with (String "-" (DecimalString.NilEmpty.string_of_uint d)).
    rewrite rstrip_c_cons by (trivial; reflexivity).
    change (option_map Z.opp
              (digits_from 0 false
                 (DecimalString.NilEmpty.string_of_uint d))
            = Some (- Z.of_uint d)).
    now rewrite Hn.
Qed.

(** What [str] writes, [int] reads back. *)
Lemma int_str (n : Z) : int (str n) = Some n.
Proof.
  unfold str. destruct n as [|p|p]; [reflexivity|..]; simpl;
    pose proof (to_uint_not_nil p) as Hp;
    destruct (int_numeral (Pos.to_uint p) Hp) as [H1 H2];
    unfold Z.of_uint in H1, H2;
    rewrite DecimalPos.Unsigned.of_to in H1, H2; simpl in H1, H2.
  - destruct (Pos.to_uint p); [congruence|exact H1..].
  - destruct (Pos.to_uint p); [congruence|exact H2..].
Qed.

Lemma get_categories_In (u : user_id) (d : db) (i : Z) (n : string) :
  In (i, n) (get_categories u d)
  <-> In (mkCategory i u n) (categories d).
Proof.
  unfold get_categories. rewrite in_map_iff. split.
  - intros [c [E Hc]]. apply order_by_In, filter_In in Hc as [Hc Hu].
    apply Z.eqb_eq in Hu. destruct c as [i' u' n']. simpl in *.
    inversion E; subst. exact Hc.
  - intros Hc. exists (mkCategory i u n). split; trivial.
    apply order_by_In, filter_In. split; trivial. apply Z.eqb_refl.
Qed.

Lemma ensure_default_categories_listed (u : user_id) (d : db) :
  get_categories u (ensure_default_categories u d) <> [].
Proof.
  assert (H : unique_conflict u "work"
                (categories (ensure_default_categories u d)) = true)
    by (apply ensure_all_present; now left).
  apply unique_conflict_spec in H as [[i u' n] [Hc [Hu Hn]]].
  simpl in Hu, Hn. subst. apply get_categories_In in Hc.
  intros E. rewrite E in Hc. destruct Hc.
Qed.

Lemma insert_or_ignore_all_entries_seq (u : user_id) (names : list string)
  (d : db) :
  time_entries_seq (insert_or_ignore_all u names d) = time_entries_seq d.
Proof.
  revert d. induction names as [|n l IH]; simpl; trivial.
  intros d. rewrite IH. apply insert_or_ignore_entries.
Qed.

(** What [cmd_track] does to the database when no timer runs: nothing, or
    the default categories when the user has none. *)
Lemma cmd_track_db (u : user_id) (f : fsm) (d : db) :
  get_active_entry u d = None ->
  let d' := snd (cmd_track u f d) in
  (d' = d \/ d' = step (EnsureDefaultCategories u) d)
  /\ get_categories u d' <> []
  /\ fst (cmd_track u f d)
     = (mkReply "Pick a category:" (keyboard_of (get_categories u d')),
        mkFsm (Some pick_category_state) (fsm_category_id f)).
Proof.
  intros Ha. unfold cmd_track. rewrite Ha.
  destruct (get_categories u d) as [|p l] eqn:E; simpl.
  - split; [now right|]. split; [apply ensure_default_categories_listed|].
    reflexivity.
  - split; [now left|]. split; [|now rewrite E]. rewrite E. discriminate.
Qed.

Lemma keyboard_button (u : user_id) (d : db) (text data : string) :
  In (text, data) (keyboard_of (get_categories u d)) ->
  exists c, In c (categories d) /\ cat_user_id c = u /\ cat_name c = text
            /\ int data = Some (cat_id c).
Proof.
  unfold keyboard_of. intros H. apply in_map_iff in H as [[i n] [E Hin]].
  simpl in E. inversion E; subst. apply get_categories_In in Hin.
  exists (mkCategory i u text). repeat split; trivial. apply int_str.
Qed.

(** X15.  While the user has a running timer that [get_active_entry] sees,
    [cmd_track] only names it: the FSM context and the database stay as
    they are.  Otherwise it moves the context to pick_category, touches no
    entry, creates the default categories if (and only if) the user has no
    category, and shows a keyboard that is never empty: one button per
    category of the user, in [get_categories] order, labelled with the
    name; the callback data of each button, read by [pick_category],
    stores the identifier of exactly that category and moves the context
    to enter_task. *)
Theorem cmd_track_keyboard (u : user_id) (f : fsm) (d : db) :
  (forall a, get_active_entry u d = Some a ->
             snd (fst (cmd_track u f d)) = f /\ snd (cmd_track u f d) = d
             /\ reply_keyboard (fst (fst (cmd_track u f d))) = [])
  /\ (get_active_entry u d = None ->
      let r := fst (fst (cmd_track u f d)) in
      let f' := snd (fst (cmd_track u f d)) in
      let d' := snd (cmd_track u f d) in
      fsm_state f' = Some pick_category_state
      /\ time_entries d' = time_entries d
      /\ (get_categories u d <> [] -> d' = d)
      /\ (get_categories u d = [] -> d' = ensure_default_categories u d)
      /\ reply_keyboard r <> []
      /\ map fst (reply_keyboard r) = map snd (get_categories u d')
      /\ forall text data,
           In (text, data) (reply_keyboard r) ->
           exists c, In c (categories d') /\ cat_user_id c = u
                     /\ cat_name c = text
                     /\ snd (pick_category data f')
                        = mkFsm (Some enter_task_state) (Some (cat_id c))).
Proof.
  split.
  - intros a Ha. unfold cmd_track. rewrite Ha. now simpl.
  - intros Ha r f' d'.
    destruct (cmd_track_db u f d Ha) as [Hd [Hne Hfst]].
    fold d' in Hd, Hne, Hfst. unfold r, f'. rewrite Hfst. simpl.
    split; [reflexivity|]. split.
    { destruct Hd as [->| ->]; trivial.
      apply ensure_default_categories_entries. }
    split.
    { intros Hc. unfold d', cmd_track. rewrite Ha.
      destruct (get_categories u d); [congruence|reflexivity]. }
    split.
    { intros Hc. unfold d', cmd_track. now rewrite Ha, Hc. }
    split.
    { unfold keyboard_of. destruct (get_categories u d'); [congruence|].
      discriminate. }
    split.
    { unfold keyboard_of. rewrite map_map. reflexivity. }
    intros text data Hin.
    destruct (keyboard_button u d' text data Hin) as [c [Hc [Hu [Hn Hi]]]].
    exists c. repeat split; trivial.
    unfold pick_category. now rewrite Hi.
Qed.

(** X16.  The whole dialogue on a reachable database: a user without
    running timer sends /track, presses one of the buttons shown and types
    a task name in ASCII text.  The three handlers leave the FSM context
    cleared and exactly one new entry, owned by the user, under the
    category of the pressed button, with the typed text stripped of
    surrounding whitespace as task name and the time of the last message as
    start; it is the entry [get_active_entry] then returns. *)
Theorem track_pick_enter (u : user_id) (f : fsm) (d : db) (now : timestamp)
  (text name data : string) :
  reachable d ->
  get_active_entry u d = None ->
  In (name, data) (reply_keyboard (fst (fst (cmd_track u f d)))) ->
  is_ascii text = true ->
  let s := handle_all u [OnTrack; OnPick data; OnText now text] (f, d) in
  let i := time_entries_seq d + 1 in
  fst s = fsm_clear
  /\ get_active_entry u (snd s) = Some (mkActive i (strip text) now name)
  /\ exists c,
       cat_user_id c = u /\ cat_name c = name
       /\ time_entries (snd s)
          = time_entries d
            ++ [mkEntry i u (cat_id c) (strip text) now None None].
Proof.
  intros Hr Ha Hin _ s i.
  destruct (cmd_track_db u f d Ha) as [Hd [_ Hfst]].
  unfold s, handle_all. cbn [fold_left handle].
  destruct (cmd_track u f d) as [[r0 f0] d'] eqn:E.
  cbn [fst snd] in Hd, Hfst, Hin.
  injection Hfst as -> ->. cbn [reply_keyboard] in Hin.
  destruct (keyboard_button u d' name data Hin) as [c [Hc [Hu [Hn Hi]]]].
  assert (Hp : handle u (OnPick data)
                 (mkFsm (Some pick_category_state) (fsm_category_id f), d')
               = (mkFsm (Some enter_task_state) (Some (cat_id c)), d')).
  { unfold handle, pick_category. cbn [fsm_state]. now rewrite Hi. }
  rewrite Hp.
  change (handle u (OnText now text)
            (mkFsm (Some enter_task_state) (Some (cat_id c)), d'))
    with (fsm_clear, start_entry now u (cat_id c) (strip text) d').
  cbn [fst snd].
  assert (Hr' : reachable d').
  { destruct Hd as [->| ->]; trivial. now apply reachable_step. }
  assert (Hseq : time_entries_seq d' = time_entries_seq d).
  { destruct Hd as [->| ->]; trivial.
    apply insert_or_ignore_all_entries_seq. }
  assert (Hent : time_entries d' = time_entries d).
  { destruct Hd as [->| ->]; trivial.
    apply ensure_default_categories_entries. }
  split; [reflexivity|]. split.
  - rewrite (get_active_entry_after_start now u (strip text) d' c
               (reachable_wf d' Hr') Hc).
    unfold i. now rewrite Hseq, Hn.
  - exists c. repeat split; trivial.
    unfold start_entry, i. cbn [time_entries]. now rewrite Hseq, Hent.
Qed.

Lemma track_pick_enter_witness :
  let s := handle_all 7 [OnTrack; OnPick "2"; OnText 5000000 "  read  "]
                      (fsm_clear, init_db) in
  reachable init_db
  /\ get_active_entry 7 init_db = None
  /\ In ("study", "2")
        (reply_keyboard (fst (fst (cmd_track 7 fsm_clear init_db))))
  /\ is_ascii "  read  " = true
  /\ fst s = fsm_clear
  /\ get_active_entry 7 (snd s) = Some (mkActive 1 "read" 5000000 "study").
Proof.
  intros s.
  assert (Hr : reachable init_db) by apply reachable_init.
  assert (Ha : get_active_entry 7 init_db = None) by reflexivity.
  assert (Hin : In ("study", "2")
                   (reply_keyboard
                      (fst (fst (cmd_track 7 fsm_clear init_db)))))
    by (right; now left).
  assert (Ht : is_ascii "  read  " = true) by reflexivity.
  destruct (track_pick_enter 7 fsm_clear init_db 5000000 "  read  "
              "study" "2" Hr Ha Hin Ht) as [H1 [H2 _]].
  repeat split; trivial.
Defined.

(** ** At most one running timer *)

Lemma running_same_entries (u : user_id) (d d' : db) :
  time_entries d' = time_entries d -> running u d' = running u d.
Proof. unfold running. now intros ->. Qed.

Lemma running_start (now : timestamp) (u c : Z) (t : string) (d : db) :
  running u (start_entry now u c t d)
  = running u d ++ [mkEntry (time_entries_seq d + 1) u c t now None None].
Proof.
  unfold running. simpl. rewrite filter_app. simpl.
  now rewrite Z.eqb_refl.
Qed.

Lemma running_stop (now : timestamp) (u : user_id) (d : db) :
  wf d ->
  (List.length (running u (snd (stop_active_entry now u d)))
   <= List.length (running u d))%nat
  /\ forall x, In x (running u (snd (stop_active_entry now u d))) ->
               In x (running u d).
Proof.
  intros Hwf. destruct (get_active_entry u d) as [a|] eqn:Ea.
  - destruct (stop_active_entry_rewrites now u d a Hwf Ea)
      as [l1 [e [l2 [E [_ [Hu [Hs [_ [E' _]]]]]]]]].
    unfold running. rewrite E', E, !filter_app. simpl.
    rewrite Hu, Hs, Z.eqb_refl. simpl. split.
    + rewrite !length_app. simpl. lia.
    + intros x Hx. apply in_app_or in Hx. apply in_or_app.
      destruct Hx; [now left|right; now right].
  - unfold stop_active_entry. rewrite Ea. simpl. auto.
Qed.

Lemma running_other (o : op) (u : user_id) (d : db) :
  wf d -> op_user o <> u -> running u (step o d) = running u d.
Proof.
  intros Hwf Ho. unfold running.
  rewrite !(filter_andb (fun e => te_user_id e =? u)).
  now destruct (other_user_rows_unchanged o d u Hwf Ho) as [-> _].
Qed.

Lemma cmd_stop_db (now : timestamp) (u : user_id) (d : db) :
  snd (cmd_stop now u d) = step (StopActiveEntry now u) d.
Proof.
  unfold cmd_stop. simpl. now destruct (stop_active_entry now u d) as [[r|] d'].
Qed.

Lemma cmd_addcat_db (u : user_id) (args : option string) (d : db) :
  snd (cmd_addcat u args d) = d
  \/ exists name, snd (cmd_addcat u args d) = step (AddCategory u name) d.
Proof.
  unfold cmd_addcat. destruct args as [[|c a]|]; simpl; auto.
  destruct (split (strip (String c a))) as [|w ws]; simpl; auto.
  right. exists (lower w). simpl.
  now destruct (add_category u (lower w) d) as [[|] d'].
Qed.

(** The database an event leaves is the one it found or one engine call
    away, and that call leaves the user's entries alone unless the event is
    the typed task name or /stop. *)
Lemma handle_db (u : user_id) (ev : event) (f : fsm) (d : db) :
  snd (handle u ev (f, d)) = d
  \/ exists o, snd (handle u ev (f, d)) = step o d.
Proof.
  destruct ev as [| |data| |now text|now|args|o]; simpl.
  - right. now exists (EnsureDefaultCategories u).
  - unfold cmd_track. destruct (get_active_entry u d); simpl; auto.
    destruct (get_categories u d); simpl; auto.
    right. now exists (EnsureDefaultCategories u).
  - destruct (fsm_state f) as [[|]|]; simpl; auto.
  - auto.
  - destruct (fsm_state f) as [[|]|]; simpl; auto.
    unfold enter_task. destruct (fsm_category_id f) as [cid|]; simpl; auto.
    right. now exists (StartEntry now u cid (strip text)).
  - right. exists (StopActiveEntry now u). apply cmd_stop_db.
  - destruct (cmd_addcat_db u args d) as [->|[name ->]]; eauto.
  - eauto.
Qed.

Lemma handle_grows (u : user_id) (ev : event) (f : fsm) (d : db) :
  reachable d ->
  reachable (snd (handle u ev (f, d)))
  /\ forall c, In c (categories d) ->
               In c (categories (snd (handle u ev (f, d)))).
Proof.
  intros Hr. destruct (handle_db u ev f d) as [->|[o ->]]; auto.
  split; [now apply reachable_step|].
  intros c Hc. destruct (step_categories_grow o d) as [extra [-> _]].
  apply in_or_app. now left.
Qed.

Lemma no_running_when_none (u : user_id) (d : db) :
  get_active_entry u d = None ->
  (forall e, In e (running u d) ->
             exists c, In c (categories d) /\ cat_id c = te_category_id e) ->
  running u d = [].
Proof.
  intros Hnone Hcat.
  destruct (running u d) as [|e l] eqn:E; trivial. exfalso.
  assert (He : In e (running u d)) by (rewrite E; now left).
  destruct (Hcat e) as [c [Hc Hid]]; [now left|].
  unfold running in He. apply filter_In in He as [He Hp].
  apply andb_true_iff in Hp as [Hu Hs]. apply Z.eqb_eq in Hu.
  apply (proj1 (get_active_entry_None_iff u d) Hnone e c); auto.
  now destruct (te_stopped_at e).
Qed.

Lemma bot_invariant_step (u : user_id) (ev : event) (s : fsm * db) :
  bot_invariant u s -> event_ok u ev s -> bot_invariant u (handle u ev s).
Proof.
  destruct s as [f d]. unfold bot_invariant. cbn [fst snd].
  intros [Hr [HA [HB [HC HD]]]] Hok.
  destruct (handle_grows u ev f d Hr) as [Hr' Hgrow].
  split; [exact Hr'|].
  pose proof (reachable_wf d Hr) as Hwf.
  assert (Hkeep : forall f', fst (handle u ev (f, d)) = f' ->
            running u (snd (handle u ev (f, d))) = running u d ->
            (fsm_state f' <> None -> running u d = []) ->
            (fsm_state f' = Some enter_task_state ->
             exists c, In c (categories d)
                       /\ fsm_category_id f' = Some (cat_id c)) ->
            (forall e, In e (running u (snd (handle u ev (f, d)))) ->
                       exists c, In c (categories (snd (handle u ev (f, d))))
                                 /\ cat_id c = te_category_id e)
            /\ (List.length (running u (snd (handle u ev (f, d)))) <= 1)%nat
            /\ (fsm_state (fst (handle u ev (f, d))) <> None ->
                running u (snd (handle u ev (f, d))) = [])
            /\ (fsm_state (fst (handle u ev (f, d))) = Some enter_task_state ->
                exists c, In c (categories (snd (handle u ev (f, d))))
                          /\ fsm_category_id (fst (handle u ev (f, d)))
                             = Some (cat_id c))).
  { intros f' Ef Erun HC' HD'. rewrite Ef, Erun.
    split; [|split; [exact HB|split; [exact HC'|]]].
    - intros e He. destruct (HA e He) as [c [Hc Hid]]. eauto.
    - intros Hst. destruct (HD' Hst) as [c [Hc Hid]]. eauto. }
  destruct ev as [| |data| |now text|now|args|o].
  - apply (Hkeep f); trivial.
    apply running_same_entries. simpl.
    apply ensure_default_categories_entries.
  - cbn [handle] in *. unfold cmd_track in *.
    destruct (get_active_entry u d) as [a|] eqn:Ea.
    + apply (Hkeep f); trivial.
    + pose proof (no_running_when_none u d Ea HA) as Hnil.
      apply (Hkeep (mkFsm (Some pick_category_state) (fsm_category_id f)));
        trivial.
      * apply running_same_entries.
        destruct (get_categories u d); cbn [snd]; trivial.
        apply ensure_default_categories_entries.
      * cbn [fsm_state]. discriminate.
  - cbn [handle] in *. cbn [event_ok fst snd] in Hok.
    destruct (fsm_state f) as [[|]|] eqn:Est;
      try (apply (Hkeep f); rewrite ?Est; trivial; fail).
    unfold pick_category in *.
    destruct (Hok eq_refl) as [c [Hc Hi]]. rewrite Hi in *.
    apply (Hkeep (mkFsm (Some enter_task_state) (Some (cat_id c))));
      trivial.
    + intros _. apply HC. discriminate.
    + intros _. exists c. auto.
  - cbn [handle] in *. unfold cmd_cancel in *.
    destruct (fsm_state f) as [st|] eqn:Est.
    + apply (Hkeep fsm_clear); trivial.
      * intros H. now elim H.
      * discriminate.
    + apply (Hkeep f); rewrite ?Est; trivial.
  - cbn [handle] in *.
    destruct (fsm_state f) as [[|]|] eqn:Est;
      try (apply (Hkeep f); rewrite ?Est; trivial; fail).
    destruct (HD eq_refl) as [c [Hc Hcid]].
    unfold enter_task in *. rewrite Hcid in *. cbn [fst snd] in *.
    rewrite running_start, HC by discriminate. cbn [app].
    split; [|split; [simpl; lia|split]].
    + intros e [<-|[]]. exists c. split; [now apply Hgrow|reflexivity].
    + intros H. now elim H.
    + discriminate.
  - cbn [handle fst snd] in *. rewrite cmd_stop_db in *. cbn [step] in *.
    destruct (running_stop now u d Hwf) as [Hlen Hsub].
    split; [|split; [lia|split]].
    + intros e He. destruct (HA e (Hsub e He)) as [c [Hc Hid]]. eauto.
    + intros Hst. specialize (HC Hst).
      destruct (running u (snd (stop_active_entry now u d)))
        as [|x l] eqn:E; trivial.
      exfalso. assert (Hx : In x (running u d))
        by (apply Hsub; now left).
      rewrite HC in Hx. destruct Hx.
    + intros Hst. destruct (HD Hst) as [c [Hc Hid]]. eauto.
  - apply (Hkeep f); trivial.
    apply running_same_entries. cbn [handle snd].
    destruct (cmd_addcat_db u args d) as [->|[name ->]]; trivial.
    apply add_category_entries.
  - apply (Hkeep f); trivial. cbn [handle snd].
    apply running_other; trivial.
Qed.

Lemma admissible_cons (u : user_id) (ev : event) (evs : list event)
  (s : fsm * db) :
  admissible u (ev :: evs) s
  <-> event_ok u ev s /\ admissible u evs (handle u ev s).
Proof. destruct ev; reflexivity. Qed.

Lemma bot_invariant_run (u : user_id) (evs : list event) (s : fsm * db) :
  bot_invariant u s -> admissible u evs s ->
  bot_invariant u (handle_all u evs s).
Proof.
  revert s. induction evs as [|ev evs IH]; intros s Hinv Hadm; trivial.
  apply admissible_cons in Hadm as [Hok Hadm].
  apply (IH (handle u ev s)); trivial. now apply bot_invariant_step.
Qed.

(** X17.  Start from a reachable database in which the user has no entry
    without stop timestamp, and from an idle FSM context.  Let the user, in
    one chat, set off any handlers in any order, one after the other
    (/start, /track, button presses, /cancel, typed text, /stop, /addcat),
    with engine calls of other users in between, as long as each button
    press that reaches [pick_category] names a category row that exists.
    Then the user never has more than one entry without stop timestamp, has
    none while a dialogue is open, and [enter_task] always finds the
    category_id it reads (no KeyError). *)
Theorem one_running_timer (u : user_id) (evs : list event) (f : fsm)
  (d : db) :
  reachable d -> fsm_state f = None -> running u d = [] ->
  admissible u evs (f, d) ->
  let s := handle_all u evs (f, d) in
  (List.length (running u (snd s)) <= 1)%nat
  /\ (fsm_state (fst s) <> None -> running u (snd s) = [])
  /\ (fsm_state (fst s) = Some enter_task_state ->
      fsm_category_id (fst s) <> None).
Proof.
  intros Hr Hf Hrun Hadm s.
  assert (Hinv : bot_invariant u (f, d)).
  { unfold bot_invariant. cbn [fst snd]. rewrite Hrun, Hf.
    split; [exact Hr|]. split; [intros e []|]. split; [simpl; lia|].
    split; [trivial|discriminate]. }
  destruct (bot_invariant_run u evs (f, d) Hinv Hadm)
    as [_ [_ [HB [HC HD]]]].
  fold s in HB, HC, HD. split; [exact HB|]. split; [exact HC|].
  intros Hst. destruct (HD Hst) as [c [_ E]]. congruence.
Qed.

Lemma one_running_timer_witness :
  let evs := [OnStart; OnTrack; OnPick "1"; OnText 0 "report";
              OnTrack; OnOther (StartEntry 3000000 2 99 "x");
              OnPick "2"; OnStop 9000000; OnTrack] in
  let s := handle_all 7 evs (fsm_clear, init_db) in
  reachable init_db
  /\ running 7 init_db = []
  /\ admissible 7 evs (fsm_clear, init_db)
  /\ Nat.le (List.length (running 7 (snd s))) 1
  /\ fsm_state (fst s) = Some pick_category_state.
Proof.
  intros evs s.
  assert (Hr : reachable init_db) by apply reachable_init.
  assert (Hrun : running 7 init_db = []) by reflexivity.
  assert (Hadm : admissible 7 evs (fsm_clear, init_db)).
  { unfold evs. cbn [admissible]. repeat split; try (simpl; lia).
    - intros _. exists (mkCategory 1 7 "work"). split; [now left|].
      reflexivity.
    - intros H. vm_compute in H. discriminate. }
  destruct (one_running_timer 7 evs fsm_clear init_db Hr eq_refl Hrun Hadm)
    as [H _].
  split; [exact Hr|]. split; [exact Hrun|]. split; [exact Hadm|].
  split; [exact H|]. vm_compute. reflexivity.
Defined.

(** ** Cancelling *)

(** X18.  [cmd_cancel] never touches the database and always leaves the FSM
    context without state (it also empties the data unless there was no
    state to begin with).  After it, button presses and typed texts change
    nothing, whatever they carry: no entry is started until the next
    /track. *)
Theorem cancel_closes_dialogue (u : user_id) (f : fsm) (d : db)
  (evs : list event) :
  forallb needs_dialogue evs = true ->
  fsm_state (snd (cmd_cancel f)) = None
  /\ (fsm_state f <> None -> snd (cmd_cancel f) = fsm_clear)
  /\ handle_all u (OnCancel :: evs) (f, d) = (snd (cmd_cancel f), d).
Proof.
  intros Hevs.
  assert (Hnone : fsm_state (snd (cmd_cancel f)) = None).
  { unfold cmd_cancel. destruct (fsm_state f) eqn:E; trivial. }
  split; [exact Hnone|]. split.
  - intros Hf. unfold cmd_cancel. now destruct (fsm_state f).
  - unfold handle_all. cbn [fold_left handle].
    generalize dependent (snd (cmd_cancel f)). intros f' Hf'.
    induction evs as [|ev evs IH]; trivial.
    cbn [forallb] in Hevs. apply andb_true_iff in Hevs as [Hev Hevs].
    cbn [fold_left].
    replace (handle u ev (f', d)) with (f', d); [now apply IH|].
    destruct ev; try discriminate; cbn [handle]; now rewrite Hf'.
Qed.

Lemma cancel_closes_dialogue_witness :
  let f := mkFsm (Some enter_task_state) (Some 1) in
  let d := ensure_default_categories 7 init_db in
  forallb needs_dialogue [OnText 5 "report"; OnPick "2"; OnText 6 "read"]
  = true
  /\ handle_all 7 [OnCancel; OnText 5 "report"; OnPick "2"; OnText 6 "read"]
                (f, d)
     = (fsm_clear, d).
Proof.
  intros f d.
  assert (H : forallb needs_dialogue
                [OnText 5 "report"; OnPick "2"; OnText 6 "read"] = true)
    by reflexivity.
  split; [exact H|].
  destruct (cancel_closes_dialogue 7 f d _ H) as [_ [_ E]].
  rewrite E. reflexivity.
Defined.
